(** * json-beautify: the line aligner, the key sorter, the markdown
      formatter and the comparison driver

    A shallow embedding of the algorithmic functions of the [JsonWorkspace]
    component (which are also found, in older copies, in [App.tsx] and
    [components/JsonDiff.tsx]), followed by the properties claimed for
    them.

    Conventions.  A JavaScript string is a [string]: a sequence of code
    units, here the ones below 256.  An array of strings is a [list string];
    reading it out of range gives [None], which stands for [undefined].
    Cursors and line numbers are [nat]. *)

From Stdlib Require Import Ascii ZArith NArith DecimalString OrdersEx.
From Stdlib Require String.
From stdpp Require Import base list strings sorting.

(* ================================================================== *)
(** * Part I: the program                                              *)
(* ================================================================== *)

(** ** computeLineDiff *)

(** [DiffLine['type']]. *)
Inductive DiffType : Set :=
  | unchanged
  | added
  | removed
  | modified_old
  | modified_new.

Global Instance DiffType_eq_dec : EqDecision DiffType.
Proof. solve_decision. Defined.

(** [interface DiffLine].  [content] is whatever [leftLines[leftIdx]] or
    [rightLines[rightIdx]] evaluated to, hence an [option]. *)
Record DiffLine : Set := mkDiffLine {
  type : DiffType;
  content : option string;
  lineNumber : nat
}.

Global Instance DiffLine_eq_dec : EqDecision DiffLine.
Proof. solve_decision. Defined.

(** The three mutable locals of [computeLineDiff]. *)
Record DiffState : Set := mkDiffState {
  result : list DiffLine;
  leftIdx : nat;
  rightIdx : nat
}.

(** [result.push(u)]. *)
Definition push (u : DiffLine) (st : DiffState) : DiffState :=
  mkDiffState (result st ++ [u]) (leftIdx st) (rightIdx st).

(** [leftIdx++] and [rightIdx++]. *)
Definition incLeft (st : DiffState) : DiffState :=
  mkDiffState (result st) (S (leftIdx st)) (rightIdx st).

Definition incRight (st : DiffState) : DiffState :=
  mkDiffState (result st) (leftIdx st) (S (rightIdx st)).

(** The lookahead loop
    [for (let i = from; i < bound; i++) if (lines[i] === target) { found = true; break }],
    run for [n = bound - from] iterations starting at [i = from]. *)
Fixpoint scanAhead (lines : list string) (target : option string)
    (i n : nat) : bool :=
  match n with
  | 0 => false
  | S n' =>
      if bool_decide (lines !! i = target) then true
      else scanAhead lines target (S i) n'
  end.

Section LineAligner.
Variables leftLines rightLines : list string.

(** The guard of the [while] loop. *)
Definition running (st : DiffState) : bool :=
  (leftIdx st <? length leftLines) || (rightIdx st <? length rightLines).

Definition foundInRight (st : DiffState) : bool :=
  scanAhead rightLines (leftLines !! leftIdx st) (rightIdx st + 1)
    (Nat.min (rightIdx st + 5) (length rightLines) - (rightIdx st + 1)).

Definition foundInLeft (st : DiffState) : bool :=
  scanAhead leftLines (rightLines !! rightIdx st) (leftIdx st + 1)
    (Nat.min (leftIdx st + 5) (length leftLines) - (leftIdx st + 1)).

(** One execution of the loop body. *)
Definition step (st : DiffState) : DiffState :=
  let leftLine := leftLines !! leftIdx st in
  let rightLine := rightLines !! rightIdx st in
  if length leftLines <=? leftIdx st then
    incRight (push (mkDiffLine added rightLine (rightIdx st + 1)) st)
  else if length rightLines <=? rightIdx st then
    incLeft (push (mkDiffLine removed leftLine (leftIdx st + 1)) st)
  else if bool_decide (leftLine = rightLine) then
    incRight (incLeft
      (push (mkDiffLine unchanged leftLine (leftIdx st + 1)) st))
  else
    if negb (foundInRight st) && negb (foundInLeft st) then
      incRight (incLeft
        (push (mkDiffLine modified_new rightLine (rightIdx st + 1))
          (push (mkDiffLine modified_old leftLine (leftIdx st + 1)) st)))
    else if foundInRight st then
      incLeft (push (mkDiffLine removed leftLine (leftIdx st + 1)) st)
    else
      incRight (push (mkDiffLine added rightLine (rightIdx st + 1)) st).

(** The [while] loop, with a bound on the number of iterations: [None]
    when the bound is used up while the guard still holds. *)
Fixpoint loop (fuel : nat) (st : DiffState) : option (list DiffLine) :=
  if running st then
    match fuel with
    | 0 => None
    | S fuel' => loop fuel' (step st)
    end
  else Some (result st).

Definition initial : DiffState := mkDiffState [] 0 0.

(** Lines not yet consumed; every iteration lowers it (see
    [step_measure]). *)
Definition remaining (st : DiffState) : nat :=
  (length leftLines - leftIdx st) + (length rightLines - rightIdx st).
End LineAligner.

(** [computeLineDiff(leftLines, rightLines)].  The loop is given
    [length leftLines + length rightLines] iterations, which
    [computeLineDiff_terminates] shows to be enough. *)
Definition computeLineDiff (leftLines rightLines : list string)
    : list DiffLine :=
  default [] (loop leftLines rightLines
                (length leftLines + length rightLines) initial).

(** ** JavaScript values and sortObjectKeys *)

(** The values [JSON.parse] produces, and [undefined].  Numbers are never
    inspected by the functions below; the model keeps the integers.  An
    object is the list of its own properties in the order in which
    [Object.keys] lists them, and has a property at most once. *)
Local Unset Elimination Schemes.
Inductive value : Type :=
  | VUndefined
  | VNull
  | VBool (b : bool)
  | VNumber (n : Z)
  | VString (s : string)
  | VArray (elems : list value)
  | VObject (props : list (string * value)).
Local Set Elimination Schemes.

(** [Object.keys(obj)]. *)
Definition ownKeys (props : list (string * value)) : list string := props.*1.

(** [obj[key]]: the first (and, in an object, only) property of that name,
    [undefined] when there is none. *)
Fixpoint getProperty (props : list (string * value)) (key : string) : value :=
  match props with
  | [] => VUndefined
  | (k, v) :: rest => if decide (k = key) then v else getProperty rest key
  end.

(** Array indices are the canonical decimal strings of the integers below
    2^32 - 1; an object lists its properties named by them first, in
    ascending numeric order, and the others after them in the order of
    their creation. *)
Definition arrayIndex (key : string) : option N :=
  match NilZero.uint_of_string key with
  | Some d =>
      let n := N.of_uint d in
      if bool_decide (NilZero.string_of_uint (N.to_uint n) = key)
         && (n <? 4294967295)%N
      then Some n else None
  | None => None
  end.

(** Overwrite the value of an existing property. *)
Fixpoint overwrite (props : list (string * value)) (key : string) (v : value)
    : list (string * value) :=
  match props with
  | [] => []
  | (k, w) :: rest =>
      if decide (k = key) then (k, v) :: rest
      else (k, w) :: overwrite rest key v
  end.

(** Create the property named by the array index [n]. *)
Fixpoint insertIndexed (n : N) (key : string) (v : value)
    (props : list (string * value)) : list (string * value) :=
  match props with
  | [] => [(key, v)]
  | (k, w) :: rest =>
      match arrayIndex k with
      | Some m =>
          if (m <? n)%N then (k, w) :: insertIndexed n key v rest
          else (key, v) :: props
      | None => (key, v) :: props
      end
  end.

(** The assignment [sorted[key] = v] on an object created by [{}], whose
    prototype chain therefore ends in [Object.prototype].  An own property
    is overwritten.  Otherwise the name ["__proto__"] reaches the setter the
    object inherits from [Object.prototype], which sets or ignores the
    prototype and creates no property; any other name is created as an own
    property. *)
Definition setProperty (props : list (string * value)) (key : string)
    (v : value) : list (string * value) :=
  if bool_decide (key ∈ ownKeys props) then overwrite props key v
  else if bool_decide (key = "__proto__") then props
  else match arrayIndex key with
       | Some n => insertIndexed n key v props
       | None => props ++ [(key, v)]
       end.

(** The order of [Array.prototype.sort] without a comparator on strings:
    code unit by code unit, a proper prefix first. *)
Definition keyLe (k1 k2 : string) : Prop :=
  String_as_OT.compare k1 k2 <> Gt.

Global Instance keyLe_dec k1 k2 : Decision (keyLe k1 k2).
Proof. unfold keyLe. apply _. Defined.

(** [Object.keys(obj).sort()]: the sorting of an array of strings. *)
Definition arraySort (keys : list string) : list string :=
  merge_sort keyLe keys.

(** [function sortObjectKeys(obj)].  In the object case the recursive calls
    are made on all property values first and looked up by key afterwards;
    [sortObjectKeys_object] gives the form of the source. *)
Fixpoint sortObjectKeys (obj : value) : value :=
  match obj with
  | VArray elems => VArray (map sortObjectKeys elems)
  | VObject props =>
      let values := map (fun kv => (kv.1, sortObjectKeys kv.2)) props in
      VObject
        (fold_left (fun sorted key => setProperty sorted key (getProperty values key))
           (arraySort (ownKeys props)) [])
  | _ => obj
  end.

(** ** Presets and formatJson *)

(** [indent: number | string]. *)
Inductive Indent : Set :=
  | IndentWidth (n : nat)
  | IndentText (s : string).

(** [interface FormatPreset]. *)
Record FormatPreset : Set := mkFormatPreset {
  name : string;
  indent : Indent;
  sortKeys : bool
}.

(** The entries of [presets]. *)
Definition preset_standard := mkFormatPreset "Standard (2 spaces)" (IndentWidth 2) false.
Definition preset_compact := mkFormatPreset "Compact (minified)" (IndentWidth 0) false.
Definition preset_expanded := mkFormatPreset "Expanded (4 spaces)" (IndentWidth 4) false.
Definition preset_tab := mkFormatPreset "Tab indented" (IndentText (String "009" "")) false.
Definition preset_sorted := mkFormatPreset "Sorted keys (2 spaces)" (IndentWidth 2) true.
Definition preset_sortedExpanded := mkFormatPreset "Sorted keys (4 spaces)" (IndentWidth 4) true.

(** What the program takes from its platform and from [jsondiffpatch]:
    [JSON.parse], which returns the value or throws an [Error] with a
    message; [JSON.stringify(value, null, indent)], where [None] is an
    [undefined] indent; and [diffpatcher.diff], which returns a [Delta] or
    [undefined].  The last two are taken to return normally. *)
Class Host := {
  Delta : Type;
  JSON_parse : string -> value + string;
  JSON_stringify : value -> option Indent -> string;
  diffpatcher_diff : value -> value -> option Delta
}.

(** [function formatJson(value, indent = 2)]. *)
Definition formatJson `{Host} (v : value) (indent : Indent) : string :=
  let ind := match indent with
             | IndentWidth 0 => None
             | _ => Some indent
             end in
  JSON_stringify v ind.

(** The JSON branch of [beautifiedResult] once the input is parsed. *)
Definition formatParsed `{Host} (parsed : value) (preset : FormatPreset)
    : string :=
  let parsed := if sortKeys preset then sortObjectKeys parsed else parsed in
  formatJson parsed (indent preset).

(** The JSON branch of [beautifiedResult]: the pair of [output] and
    [error]. *)
Definition beautifyJson `{Host} (primaryInput : string)
    (preset : FormatPreset) : string * string :=
  match JSON_parse primaryInput with
  | inl parsed => (formatParsed parsed preset, "")
  | inr message => ("", "Invalid JSON: " +:+ message)
  end.

(** ** Strings *)

(** The characters of the class [\s], which are also the ones [trim],
    [trimStart] and [trimEnd] remove: tab, line feed, vertical tab, form
    feed, carriage return, space and no-break space. *)
Definition isWhiteSpace (c : ascii) : bool :=
  let n := nat_of_ascii c in
  (n =? 9) || (n =? 10) || (n =? 11) || (n =? 12) || (n =? 13)
  || (n =? 32) || (n =? 160).

(** The characters [.] does not match: line feed and carriage return. *)
Definition isLineTerminator (c : ascii) : bool :=
  let n := nat_of_ascii c in (n =? 10) || (n =? 13).

Definition isEmpty (s : string) : bool :=
  match s with
  | EmptyString => true
  | String _ _ => false
  end.

Fixpoint trimStart (s : string) : string :=
  match s with
  | EmptyString => EmptyString
  | String c rest => if isWhiteSpace c then trimStart rest else s
  end.

Fixpoint trimEnd (s : string) : string :=
  match s with
  | EmptyString => EmptyString
  | String c rest =>
      let rest' := trimEnd rest in
      if isWhiteSpace c && isEmpty rest' then EmptyString
      else String c rest'
  end.

Definition trim (s : string) : string := trimStart (trimEnd s).

(** [s.split('\n')]. *)
Fixpoint splitLines (s : string) : list string :=
  match s with
  | EmptyString => [EmptyString]
  | String c rest =>
      if Ascii.eqb c "010" then EmptyString :: splitLines rest
      else match splitLines rest with
           | line :: lines => String c line :: lines
           | [] => [String c EmptyString]
           end
  end.

(** [lines.join('\n')]. *)
Fixpoint joinLines (lines : list string) : string :=
  match lines with
  | [] => EmptyString
  | [line] => line
  | line :: rest => line +:+ String "010" (joinLines rest)
  end.

(** [c.repeat(n)] for a one-character string. *)
Fixpoint repeatChar (c : ascii) (n : nat) : string :=
  match n with
  | 0 => EmptyString
  | S n' => String c (repeatChar c n')
  end.

(** The longest prefix of characters satisfying [p], and what follows. *)
Fixpoint span (p : ascii -> bool) (s : string) : string * string :=
  match s with
  | EmptyString => (EmptyString, EmptyString)
  | String c rest =>
      if p c then let (pre, post) := span p rest in (String c pre, post)
      else (EmptyString, s)
  end.

Fixpoint allChars (p : ascii -> bool) (s : string) : bool :=
  match s with
  | EmptyString => true
  | String c rest => p c && allChars p rest
  end.

(** A pattern ending in "any characters, then end of string" matches the
    rest of the string when it has no line terminator. *)
Definition matchesDotStar (s : string) : bool :=
  allChars (fun c => negb (isLineTerminator c)) s.

(** [s.endsWith('\n')]. *)
Fixpoint endsWithNewline (s : string) : bool :=
  match s with
  | EmptyString => false
  | String c EmptyString => Ascii.eqb c "010"
  | String _ rest => endsWithNewline rest
  end.

(** ** formatMarkdown *)

(** [interface MarkdownPreset]. *)
Record MarkdownPreset : Set := mkMarkdownPreset {
  md_name : string;
  normalizeHeadings : bool;
  normalizeListIndent : nat;
  trimTrailingWhitespace : bool;
  ensureNewlineAtEnd : bool;
  normalizeBlankLines : bool
}.

(** The entries of [markdownPresets]. *)
Definition md_standard := mkMarkdownPreset "Standard" true 2 true true true.
Definition md_compact := mkMarkdownPreset "Compact" true 2 true true false.
Definition md_expanded :=
  mkMarkdownPreset "Expanded (4-space lists)" true 4 true true true.

Definition isHash (c : ascii) : bool := Ascii.eqb c "#".
Definition isBullet (c : ascii) : bool :=
  Ascii.eqb c "-" || Ascii.eqb c "*" || Ascii.eqb c "+".
Definition isDigit (c : ascii) : bool :=
  let n := nat_of_ascii c in (48 <=? n) && (n <=? 57).

(** [line.match(...)] for the heading pattern of the source, which reads:
    start of string; group 1, one to six ['#']; group 2, one character that
    is neither white space nor ['#'] followed by any characters other than
    line terminators; end of string.  The result is the pair of the groups.
    The character after the markers must be neither white space nor ['#'],
    so the markers are the whole leading run of ['#'], of length 1 to 6, and
    group 2 is all that follows them. *)
Definition matchHeading (line : string) : option (string * string) :=
  let (markers, text) := span isHash line in
  match text with
  | String c _ =>
      if (1 <=? String.length markers) && (String.length markers <=? 6)
         && negb (isWhiteSpace c) && negb (isHash c)
         && matchesDotStar text
      then Some (markers, text) else None
  | EmptyString => None
  end.

(** The callback of the heading pass. *)
Definition normalizeHeading (line : string) : string :=
  match matchHeading line with
  | Some (markers, text) => markers +:+ " " +:+ trim text
  | None => line
  end.

(** [line.match(...)] for the unordered-item pattern: start of string;
    group 1, any white space; group 2, one of ['-'], ['*'], ['+']; group 3,
    white space, at least one character; group 4, any characters other than
    line terminators; end of string.  The result is the groups 1, 2 and 4:
    groups 1 and 3 are followed by a character that is not white space, or
    by the end, so each is a whole run of white space. *)
Definition matchUnordered (line : string)
    : option (string * string * string) :=
  let (leadingSpace, afterSpace) := span isWhiteSpace line in
  match afterSpace with
  | String c afterMarker =>
      let (gap, text) := span isWhiteSpace afterMarker in
      if isBullet c && negb (isEmpty gap) && matchesDotStar text
      then Some (leadingSpace, String c EmptyString, text) else None
  | EmptyString => None
  end.

(** [line.match(...)] for the ordered-item pattern: as above with group 2
    made of one or more digits and a full stop. *)
Definition matchOrdered (line : string)
    : option (string * string * string) :=
  let (leadingSpace, afterSpace) := span isWhiteSpace line in
  let (digits, afterDigits) := span isDigit afterSpace in
  match afterDigits with
  | String c afterMarker =>
      let (gap, text) := span isWhiteSpace afterMarker in
      if negb (isEmpty digits) && Ascii.eqb c "." && negb (isEmpty gap)
         && matchesDotStar text
      then Some (leadingSpace, digits +:+ ".", text) else None
  | EmptyString => None
  end.

(** The callback of the list pass. *)
Definition normalizeListItem (indentSize : nat) (line : string) : string :=
  let reindent '(leadingSpace, marker, text) :=
    let originalIndent := String.length leadingSpace in
    let level := originalIndent / 2 in
    let newIndent := repeatChar " " (level * indentSize) in
    newIndent +:+ marker +:+ " " +:+ text in
  match matchUnordered line with
  | Some m => reindent m
  | None =>
      match matchOrdered line with
      | Some m => reindent m
      | None => line
      end
  end.

(** The loop of the blank-line pass, with its counter. *)
Fixpoint collapseBlankLines (consecutiveBlankLines : nat)
    (lines : list string) : list string :=
  match lines with
  | [] => []
  | line :: rest =>
      if isEmpty (trim line) then
        if S consecutiveBlankLines <=? 1
        then line :: collapseBlankLines (S consecutiveBlankLines) rest
        else collapseBlankLines (S consecutiveBlankLines) rest
      else line :: collapseBlankLines 0 rest
  end.

(** [function formatMarkdown(content, preset)]. *)
Definition formatMarkdown (content : string) (preset : MarkdownPreset)
    : string :=
  let lines := splitLines content in
  let lines :=
    if trimTrailingWhitespace preset then map trimEnd lines else lines in
  let lines :=
    if normalizeHeadings preset then map normalizeHeading lines else lines in
  let lines := map (normalizeListItem (normalizeListIndent preset)) lines in
  let lines :=
    if normalizeBlankLines preset then collapseBlankLines 0 lines
    else lines in
  let formatted := joinLines lines in
  if ensureNewlineAtEnd preset && negb (endsWithNewline formatted)
  then formatted +:+ String "010" EmptyString
  else formatted.

(** ** compareDiff *)

Inductive ContentType : Set := json | markdown.

(** The state slots of [JsonWorkspace] that [compareDiff] writes.  [null]
    is [None] for [diffResult] and [VNull] for the parsed values;
    [undefined] is [None] for [semanticDiff]. *)
Record Workspace `{Host} : Type := mkWorkspace {
  error : string;
  diffResult : option (list DiffLine);
  leftParsed : value;
  rightParsed : value;
  semanticDiff : option Delta;
  beautifiedOutput : string
}.

Arguments mkWorkspace {_} _ _ _ _ _ _.
Arguments error {_} _.
Arguments diffResult {_} _.
Arguments leftParsed {_} _.
Arguments rightParsed {_} _.
Arguments semanticDiff {_} _.
Arguments beautifiedOutput {_} _.

(** The state after the six resets that open [compareDiff], with the error
    message given. *)
Definition resetWith `{Host} (message : string) : Workspace :=
  mkWorkspace message None VNull VNull None "".

(** [compareDiff], as a function of the content type and the two inputs.
    The state it leaves does not depend on the one it finds, since it first
    resets every slot it writes. *)
Definition compareDiff `{Host} (contentType : ContentType)
    (primaryInput secondaryInput : string) : Workspace :=
  if isEmpty (trim primaryInput) || isEmpty (trim secondaryInput) then
    resetWith ("Please enter "
               +:+ (if contentType is markdown then "markdown" else "JSON")
               +:+ " in both panels to compare")
  else
    match contentType with
    | markdown =>
        let leftLines := splitLines primaryInput in
        let rightLines := splitLines secondaryInput in
        let diff := computeLineDiff leftLines rightLines in
        mkWorkspace "" (Some diff)
          (VString primaryInput) (VString secondaryInput) None ""
    | json =>
        match JSON_parse primaryInput with
        | inr message => resetWith ("Invalid JSON: " +:+ message)
        | inl left_ =>
            match JSON_parse secondaryInput with
            | inr message => resetWith ("Invalid JSON: " +:+ message)
            | inl right_ =>
                let delta := diffpatcher_diff left_ right_ in
                let leftFormatted :=
                  splitLines (formatJson left_ (IndentWidth 2)) in
                let rightFormatted :=
                  splitLines (formatJson right_ (IndentWidth 2)) in
                let diff := computeLineDiff leftFormatted rightFormatted in
                mkWorkspace "" (Some diff) left_ right_ delta ""
            end
        end
    end.

(** A host for the examples: its parser accepts the text of the empty
    object and rejects every other text with one message. *)
Definition exampleHost : Host := {|
  Delta := unit;
  JSON_parse := fun text =>
    if String.eqb text "{}" then inl (VObject [])
    else inr "Expected property name or '}' in JSON at position 1";
  JSON_stringify := fun _ _ => "{}";
  diffpatcher_diff := fun _ _ => None
|}.

(** The order in which an object built by [sortObjectKeys] lists its keys:
    array indices by value, then the other names by code units. *)
Definition canonicalBefore (k1 k2 : string) : Prop :=
  match arrayIndex k1, arrayIndex k2 with
  | Some a, Some b => (a < b)%N
  | Some _, None => True
  | None, Some _ => False
  | None, None => String_as_OT.lt k1 k2
  end.

Definition canonical (props : list (string * value)) : Prop :=
  StronglySorted canonicalBefore (ownKeys props).

(** Number of units of a given type in an edit script. *)
Definition countType (t : DiffType) (script : list DiffLine) : nat :=
  length (filter (fun u => type u = t) script).

(** Positions consumed on the left and on the right by a script. *)
Definition leftUnits (script : list DiffLine) : nat :=
  countType unchanged script + countType removed script
  + countType modified_old script.

Definition rightUnits (script : list DiffLine) : nat :=
  countType unchanged script + countType added script
  + countType modified_new script.

(** The units that stand for a line of the left sequence, and of the right
    one; what a unit says about its line. *)
Definition onLeft (u : DiffLine) : Prop :=
  type u = unchanged \/ type u = removed \/ type u = modified_old.

Definition onRight (u : DiffLine) : Prop :=
  type u = unchanged \/ type u = added \/ type u = modified_new.

Global Instance onLeft_dec u : Decision (onLeft u).
Proof. unfold onLeft. apply _. Defined.

Global Instance onRight_dec u : Decision (onRight u).
Proof. unfold onRight. apply _. Defined.

Definition position (u : DiffLine) : option string * nat :=
  (content u, lineNumber u).

(** The lines of a sequence with their 1-based numbers. *)
Definition numbered (lines : list string) : list (option string * nat) :=
  imap (fun i line => (Some line, i + 1)) lines.

(** The type of the unit at position [i] of an edit script. *)
Definition typeAt (script : list DiffLine) (i : nat) : option DiffType :=
  type <$> script !! i.

(** Edit scripts in which [modified_old] and [modified_new] units only come
    as adjacent pairs, described by the way [result.push] builds them. *)
Inductive Paired : list DiffLine -> Prop :=
  | Paired_nil : Paired []
  | Paired_single script u :
      Paired script ->
      type u <> modified_old -> type u <> modified_new ->
      Paired (script ++ [u])
  | Paired_pair script u v :
      Paired script ->
      type u = modified_old -> type v = modified_new ->
      Paired (script ++ [u; v]).

(** The script the aligner returns on two copies of one sequence. *)
Definition allUnchanged (lines : list string) : list DiffLine :=
  imap (fun i line => mkDiffLine unchanged (Some line) (i + 1)) lines.

(** ** Statistics and views of a comparison *)

(** The object [{ added, removed, modified }] that [stats] returns. *)
Record DiffStats : Set := mkDiffStats {
  addedCount : nat;
  removedCount : nat;
  modifiedCount : nat
}.

(** The [for (const line of diffResult)] loop of [stats], from given
    counters. *)
Fixpoint countLines (addedN removedN modifiedN : nat)
    (script : list DiffLine) : DiffStats :=
  match script with
  | [] => mkDiffStats addedN removedN modifiedN
  | line :: rest =>
      match type line with
      | added => countLines (S addedN) removedN modifiedN rest
      | removed => countLines addedN (S removedN) modifiedN rest
      | modified_old => countLines addedN removedN (S modifiedN) rest
      | _ => countLines addedN removedN modifiedN rest
      end
  end.

(** [stats]. *)
Definition stats (diffResult : option (list DiffLine)) : DiffStats :=
  match diffResult with
  | None => mkDiffStats 0 0 0
  | Some script => countLines 0 0 0 script
  end.

(** [hasChanges]. *)
Definition hasChanges {D : Type} (contentType : ContentType)
    (diffResult : option (list DiffLine)) (semanticDiff : option D) : bool :=
  match contentType with
  | markdown =>
      match diffResult with
      | Some script =>
          existsb (fun line => negb (bool_decide (type line = unchanged)))
            script
      | None => false
      end
  | json => bool_decide (semanticDiff <> None)
  end.

(** [!v] is false: the value is neither [undefined], [null], [false], zero
    nor the empty string. *)
Definition truthy (v : value) : bool :=
  match v with
  | VUndefined | VNull => false
  | VBool b => b
  | VNumber n => negb (n =? 0)%Z
  | VString s => negb (isEmpty s)
  | VArray _ | VObject _ => true
  end.

(** The test [diffResult?.find(d => (d.type === t1 || d.type === t2) &&
    d.content === line)] of the split view followed by the test of the type
    of the unit found. *)
Definition markedBy (t1 t2 : DiffType) (diffResult : option (list DiffLine))
    (line : string) : bool :=
  let ofType d := bool_decide (type d = t1) || bool_decide (type d = t2) in
  let diffLine :=
    match diffResult with
    | Some script =>
        find (fun d => ofType d && bool_decide (content d = Some line)) script
    | None => None
    end in
  match diffLine with
  | Some d => ofType d
  | None => false
  end.

(** A row of a column of the split view: the number shown, the text, and
    whether the row is highlighted. *)
Record SplitRow : Set := mkSplitRow {
  rowNumber : nat;
  rowText : string;
  rowMarked : bool
}.

(** What [renderSplitView] comes to: nothing ([null]), a [TypeError] (when
    [split] is called on a value that is not a string), or the rows of the
    two columns. *)
Inductive SplitView : Set :=
  | NoSplitView
  | SplitViewThrows
  | SplitColumns (original modified : list SplitRow).

(** The lines of one side in [renderSplitView]. *)
Definition sideLines `{Host} (contentType : ContentType) (parsed : value)
    : option (list string) :=
  match contentType with
  | markdown =>
      match parsed with
      | VString s => Some (splitLines s)
      | _ => None
      end
  | json => Some (splitLines (formatJson parsed (IndentWidth 2)))
  end.

(** [renderSplitView]. *)
Definition renderSplitView `{Host} (contentType : ContentType)
    (diffResult : option (list DiffLine)) (leftParsed rightParsed : value)
    : SplitView :=
  if negb (truthy leftParsed) || negb (truthy rightParsed) then NoSplitView
  else
    match sideLines contentType leftParsed,
          sideLines contentType rightParsed with
    | Some leftLines, Some rightLines =>
        SplitColumns
          (imap (fun idx line =>
                   mkSplitRow (idx + 1) line
                     (markedBy removed modified_old diffResult line))
             leftLines)
          (imap (fun idx line =>
                   mkSplitRow (idx + 1) line
                     (markedBy added modified_new diffResult line))
             rightLines)
    | _, _ => SplitViewThrows
    end.

(** [renderAnnotatedHtml], given [formatHtml] of [jsondiffpatch], which
    returns the markup or throws ([None]). *)
Definition renderAnnotatedHtml {D : Type} (formatHtml : D -> value -> option string)
    (leftParsed : value) (semanticDiff : option D) : option string :=
  if negb (truthy leftParsed) then None
  else match semanticDiff with
       | None => None
       | Some delta => formatHtml delta leftParsed
       end.

(** ** Modes and the beautified result *)

(** [type WorkspaceMode]. *)
Inductive WorkspaceMode : Set := mode_idle | mode_beautify | mode_compare.

Global Instance WorkspaceMode_eq_dec : EqDecision WorkspaceMode.
Proof. solve_decision. Defined.

(** [currentMode]. *)
Definition currentMode (primaryInput secondaryInput : string)
    (showSecondary : bool) : WorkspaceMode :=
  let hasPrimary := 0 <? String.length (trim primaryInput) in
  let hasSecondary := 0 <? String.length (trim secondaryInput) in
  if negb hasPrimary then mode_idle
  else if hasSecondary || showSecondary then mode_compare
  else mode_beautify.

(** [beautifiedResult], as the pair of [output] and [error], for the
    selected entries of [presets] and [markdownPresets]. *)
Definition beautifiedResult `{Host} (mode : WorkspaceMode)
    (contentType : ContentType) (primaryInput : string)
    (preset : FormatPreset) (markdownPreset : MarkdownPreset)
    : string * string :=
  if negb (bool_decide (mode = mode_beautify)) || isEmpty (trim primaryInput)
  then ("", "")
  else
    match contentType with
    | markdown => (formatMarkdown primaryInput markdownPreset, "")
    | json => beautifyJson primaryInput preset
    end.

(** ** Vocabulary of the further properties *)

(** A script with every line number raised by [n]. *)
Definition renumber (n : nat) (script : list DiffLine) : list DiffLine :=
  (fun u => mkDiffLine (type u) (content u) (n + lineNumber u)) <$> script.

(** The script that reports every line of a sequence with one type. *)
Definition allOfType (t : DiffType) (lines : list string) : list DiffLine :=
  imap (fun i line => mkDiffLine t (Some line) (i + 1)) lines.

(** A line the blank-line pass counts as blank. *)
Definition isBlank (line : string) : bool := isEmpty (trim line).

(** Values all of whose objects list their keys in the canonical order and
    have no own property named ["__proto__"]. *)
Fixpoint sortedValue (v : value) : Prop :=
  match v with
  | VArray elems =>
      (fix all (l : list value) : Prop :=
         match l with
         | [] => True
         | e :: l' => sortedValue e /\ all l'
         end) elems
  | VObject props =>
      canonical props
      /\ ("__proto__" ∉ ownKeys props)
      /\ (fix all (l : list (string * value)) : Prop :=
            match l with
            | [] => True
            | (_, w) :: l' => sortedValue w /\ all l'
            end) props
  | _ => True
  end.

(** The line a unit stands for: a defined line, found in the left sequence
    under the unit's number for unchanged, removed and modified-old units,
    and in the right sequence for added and modified-new units. *)
Definition carriesLine (leftLines rightLines : list string) (u : DiffLine)
    : Prop :=
  1 <= lineNumber u
  /\ is_Some (content u)
  /\ match type u with
     | unchanged | removed | modified_old =>
         leftLines !! (lineNumber u - 1) = content u
     | added | modified_new =>
         rightLines !! (lineNumber u - 1) = content u
     end.

(** The characters other than the line feed. *)
Definition noNewline (c : ascii) : bool := negb (Ascii.eqb c "010").

(** Lists without two blank lines in a row; with [afterBlank], also
    without a blank line at the front. *)
Fixpoint blankRunFree (afterBlank : bool) (lines : list string) : bool :=
  match lines with
  | [] => true
  | line :: rest =>
      if isBlank line then negb afterBlank && blankRunFree true rest
      else blankRunFree false rest
  end.

(** A string that is empty or starts with a character outside [p]. *)
Definition startsOutside (p : ascii -> bool) (s : string) : Prop :=
  match s with
  | EmptyString => True
  | String c _ => p c = false
  end.

(** The value of [lines] when [formatMarkdown] joins it. *)
Definition markdownLines (content : string) (preset : MarkdownPreset)
    : list string :=
  let lines := splitLines content in
  let lines :=
    if trimTrailingWhitespace preset then map trimEnd lines else lines in
  let lines :=
    if normalizeHeadings preset then map normalizeHeading lines else lines in
  let lines := map (normalizeListItem (normalizeListIndent preset)) lines in
  if normalizeBlankLines preset then collapseBlankLines 0 lines else lines.

(** What the three per-line passes make of one line. *)
Definition rewriteLine (preset : MarkdownPreset) (line : string) : string :=
  let line := if trimTrailingWhitespace preset then trimEnd line else line in
  let line := if normalizeHeadings preset then normalizeHeading line else line in
  normalizeListItem (normalizeListIndent preset) line.

(** A line that [trimEnd] leaves as it is. *)
Definition trimmed (line : string) : Prop := trimEnd line = line.

(** The string holds no carriage return. *)
Definition noCarriageReturn (s : string) : bool :=
  allChars (fun c => negb (Ascii.eqb c "013")) s.

(** The non-blank lines of a text, in order. *)
Definition nonblankLines (s : string) : list string :=
  filter (fun line => isBlank line = false) (splitLines s).

(** Whether the heading pass rewrites a line made of [n] markers, at least
    one, and of a text that does not start with a marker: there are at most
    six markers, the text starts with a character that is not white space,
    and it holds no carriage return. *)
Definition headingRewritten (n : nat) (text : string) : bool :=
  (n <=? 6)
  && match text with
     | String c _ => negb (isWhiteSpace c)
     | EmptyString => false
     end
  && noCarriageReturn text.

(** A parser for the examples that reads the numerals 0 and 1. *)
Definition digitHost : Host := {|
  Delta := unit;
  JSON_parse := fun text =>
    if String.eqb text "0" then inl (VNumber 0)
    else if String.eqb text "1" then inl (VNumber 1)
    else inr "Unexpected token";
  JSON_stringify := fun v _ =>
    match v with
    | VNumber 0 => "0"
    | _ => "1"
    end;
  diffpatcher_diff := fun a b => Some tt
|}.

(* ================================================================== *)
(** * Part II: properties                                              *)
(* ================================================================== *)

(** ** The loop of computeLineDiff *)

Section LineAlignerFacts.
Variables leftLines rightLines : list string.

Local Abbreviation guard := (running leftLines rightLines).
Local Abbreviation body := (step leftLines rightLines).
Local Abbreviation while := (loop leftLines rightLines).
Local Abbreviation todo := (remaining leftLines rightLines).

Lemma running_true st :
  guard st = true <->
  leftIdx st < length leftLines \/ rightIdx st < length rightLines.
Proof.
  unfold running. rewrite orb_true_iff, !Nat.ltb_lt. tauto.
Qed.

Lemma running_false st :
  guard st = false <->
  length leftLines <= leftIdx st /\ length rightLines <= rightIdx st.
Proof.
  unfold running. rewrite orb_false_iff, !Nat.ltb_ge. tauto.
Qed.

(** The body only appends to [result], and moves each cursor by zero or
    one position, at least one of them by one. *)
Lemma step_shape st :
  exists us dl dr,
    body st = mkDiffState (result st ++ us) (leftIdx st + dl) (rightIdx st + dr)
    /\ dl <= 1 /\ dr <= 1 /\ 1 <= dl + dr
    /\ (dl = 1 -> guard st = true -> leftIdx st < length leftLines)
    /\ (dr = 1 -> guard st = true -> rightIdx st < length rightLines).
Proof.
  unfold step, push, incLeft, incRight; simpl.
  destruct (length leftLines <=? leftIdx st) eqn:Hl.
  { eexists _, 0, 1. rewrite Nat.add_0_r, Nat.add_1_r.
    repeat split; try lia.
    intros _ [H|H]%running_true; [apply Nat.leb_le in Hl; lia | done]. }
  apply Nat.leb_gt in Hl.
  destruct (length rightLines <=? rightIdx st) eqn:Hr.
  { eexists _, 1, 0. rewrite Nat.add_0_r, Nat.add_1_r.
    repeat split; try lia. }
  apply Nat.leb_gt in Hr.
  case_bool_decide.
  { eexists _, 1, 1. rewrite !Nat.add_1_r. repeat split; try lia. }
  destruct (foundInRight _ _ st), (foundInLeft _ _ st); simpl.
  - eexists _, 1, 0. rewrite Nat.add_0_r, Nat.add_1_r. repeat split; lia.
  - eexists _, 1, 0. rewrite Nat.add_0_r, Nat.add_1_r. repeat split; lia.
  - eexists _, 0, 1. rewrite Nat.add_0_r, Nat.add_1_r. repeat split; lia.
  - eexists _, 1, 1. rewrite !Nat.add_1_r, <- app_assoc.
    repeat split; lia.
Qed.

Lemma step_measure st :
  guard st = true -> todo (body st) < todo st.
Proof.
  intros Hrun.
  destruct (step_shape st) as (us & dl & dr & -> & ? & ? & ? & Hdl & Hdr).
  unfold remaining; simpl.
  assert (dl = 1 -> leftIdx st < length leftLines) by auto.
  assert (dr = 1 -> rightIdx st < length rightLines) by auto.
  lia.
Qed.

(** With as many iterations as there are lines left, the loop returns. *)
Lemma loop_returns fuel st :
  todo st <= fuel -> is_Some (while fuel st).
Proof.
  revert st. induction fuel as [|fuel IH]; intros st Hfuel; simpl.
  - destruct (guard st) eqn:Hrun; [|by eexists].
    apply step_measure in Hrun. lia.
  - destruct (guard st) eqn:Hrun; [|by eexists].
    apply IH. apply step_measure in Hrun. lia.
Qed.

(** More iterations than needed change nothing. *)
Lemma loop_more_fuel fuel fuel' st res :
  while fuel st = Some res -> fuel <= fuel' -> while fuel' st = Some res.
Proof.
  revert fuel' st. induction fuel as [|fuel IH]; intros fuel' st; simpl.
  - destruct (guard st) eqn:Hrun; [done|].
    intros <- _. destruct fuel'; simpl; by rewrite Hrun.
  - destruct (guard st) eqn:Hrun.
    + intros Hres Hle. destruct fuel' as [|fuel']; [lia|]. simpl.
      rewrite Hrun. apply IH; [done | lia].
    + intros <- _. destruct fuel'; simpl; by rewrite Hrun.
Qed.

(** Invariant rule for the loop: what holds initially and is kept by the
    body holds of the state in which the guard fails. *)
Lemma loop_invariant (Inv : DiffState -> Prop) fuel st res :
  (forall s, Inv s -> guard s = true -> Inv (body s)) ->
  Inv st -> while fuel st = Some res ->
  exists final, Inv final /\ guard final = false /\ result final = res.
Proof.
  intros Hstep. revert st.
  induction fuel as [|fuel IH]; intros st Hinv; simpl;
    destruct (guard st) eqn:Hrun; try done.
  - intros [= <-]. eauto.
  - apply IH. auto.
  - intros [= <-]. eauto.
Qed.

Lemma remaining_initial :
  todo initial = length leftLines + length rightLines.
Proof. unfold remaining; simpl. lia. Qed.

Lemma computeLineDiff_loop :
  while (length leftLines + length rightLines) initial
  = Some (computeLineDiff leftLines rightLines).
Proof.
  unfold computeLineDiff.
  destruct (loop_returns (length leftLines + length rightLines) initial)
    as [res ->]; [by rewrite remaining_initial | done].
Qed.

(** The form in which invariants are used: a property of the exit state
    is a property of the returned script. *)
Lemma computeLineDiff_invariant (Inv : DiffState -> Prop) :
  Inv initial ->
  (forall s, Inv s -> guard s = true -> Inv (body s)) ->
  exists final,
    Inv final /\ guard final = false
    /\ result final = computeLineDiff leftLines rightLines.
Proof.
  intros H0 Hstep. eapply loop_invariant; eauto using computeLineDiff_loop.
Qed.
End LineAlignerFacts.

Lemma loop_continue leftLines rightLines fuel st :
  running leftLines rightLines st = true ->
  loop leftLines rightLines (S fuel) st
  = loop leftLines rightLines fuel (step leftLines rightLines st).
Proof. simpl. by intros ->. Qed.

Lemma loop_exit leftLines rightLines fuel st :
  running leftLines rightLines st = false ->
  loop leftLines rightLines fuel st = Some (result st).
Proof. destruct fuel; simpl; by intros ->. Qed.

(** ** Scenario D *)

(** C1.  On left = ["a","c"] and right = ["a","b","c"] the aligner does not
    return [unchanged(a), added(b), unchanged(c)]: the left line "c" is
    found two lines ahead on the right and is therefore emitted as removed,
    after which the two remaining right lines are emitted as added. *)
Theorem scenario_D_pure_insertion :
  computeLineDiff ["a"; "c"] ["a"; "b"; "c"]
  = [ mkDiffLine unchanged (Some "a") 1;
      mkDiffLine removed (Some "c") 2;
      mkDiffLine added (Some "b") 2;
      mkDiffLine added (Some "c") 3 ]
  /\ (fun u => (type u, content u)) <$> computeLineDiff ["a"; "c"] ["a"; "b"; "c"]
     <> [ (unchanged, Some "a"); (added, Some "b"); (unchanged, Some "c") ].
Proof. split; [reflexivity | discriminate]. Qed.

(** The mirrored input, a pure deletion, is misread the same way. *)
Example pure_deletion :
  computeLineDiff ["a"; "b"; "c"] ["a"; "c"]
  = [ mkDiffLine unchanged (Some "a") 1;
      mkDiffLine added (Some "c") 2;
      mkDiffLine removed (Some "b") 2;
      mkDiffLine removed (Some "c") 3 ].
Proof. reflexivity. Qed.

(** The reading of Scenario D does not depend on the lines chosen: a line
    inserted between two others is reported as the removal of the line
    after it followed by two additions. *)
Lemma single_insertion_misread (a b c : string) :
  b <> c ->
  computeLineDiff [a; c] [a; b; c]
  = [ mkDiffLine unchanged (Some a) 1;
      mkDiffLine removed (Some c) 2;
      mkDiffLine added (Some b) 2;
      mkDiffLine added (Some c) 3 ].
Proof.
  intros Hbc. unfold computeLineDiff.
  change (length [a; c] + length [a; b; c]) with 5.
  rewrite loop_continue by done.
  assert (step [a; c] [a; b; c] initial
          = mkDiffState [mkDiffLine unchanged (Some a) 1] 1 1) as ->.
  { unfold step. simpl. by rewrite bool_decide_eq_true_2. }
  rewrite loop_continue by done.
  assert (step [a; c] [a; b; c]
            (mkDiffState [mkDiffLine unchanged (Some a) 1] 1 1)
          = mkDiffState [mkDiffLine unchanged (Some a) 1;
                         mkDiffLine removed (Some c) 2] 2 1) as ->.
  { unfold step, foundInRight, foundInLeft. simpl.
    rewrite (bool_decide_eq_false_2 (Some c = Some b)) by congruence.
    by rewrite bool_decide_eq_true_2. }
  rewrite loop_continue by done.
  rewrite loop_continue by done.
  by rewrite loop_exit.
Qed.

(** Scenario C of the specification, for comparison. *)
Example scenario_C :
  computeLineDiff ["a"; "b"; "c"] ["a"; "x"; "c"]
  = [ mkDiffLine unchanged (Some "a") 1;
      mkDiffLine modified_old (Some "b") 2;
      mkDiffLine modified_new (Some "x") 2;
      mkDiffLine unchanged (Some "c") 3 ].
Proof. reflexivity. Qed.

(** ** Totality *)

Lemma countType_app t s1 s2 :
  countType t (s1 ++ s2) = countType t s1 + countType t s2.
Proof. unfold countType. by rewrite filter_app, length_app. Qed.

Lemma countType_singleton t u :
  countType t [u] = if decide (type u = t) then 1 else 0.
Proof.
  unfold countType. rewrite filter_cons, filter_nil.
  by destruct (decide (type u = t)).
Qed.

(** C2, as stated, fails on left = right = ["a"]: the script is the single
    unit unchanged(a), so no unit is removed, added or modified while both
    sequences have one line. *)
Lemma totality_without_unchanged_fails :
  ~ (let script := computeLineDiff ["a"] ["a"] in
     countType removed script + countType modified_old script
       = length ["a"]
     /\ countType added script + countType modified_new script
       = length ["a"]).
Proof. simpl. intros [H _]. discriminate H. Qed.

(** C2, amended.  Counting the unchanged units on both sides, the script
    has one unit per line of the left sequence among its unchanged, removed
    and modified-old units, and one per line of the right sequence among
    its unchanged, added and modified-new units. *)
Theorem totality (leftLines rightLines : list string) :
  leftUnits (computeLineDiff leftLines rightLines) = length leftLines
  /\ rightUnits (computeLineDiff leftLines rightLines) = length rightLines.
Proof.
  destruct (computeLineDiff_invariant leftLines rightLines
    (fun st => leftUnits (result st) = leftIdx st
               /\ rightUnits (result st) = rightIdx st
               /\ leftIdx st <= length leftLines
               /\ rightIdx st <= length rightLines))
    as (final & (Hl & Hr & Hlb & Hrb) & Hexit & <-).
  - simpl. repeat split; lia.
  - intros st (Hl & Hr & Hlb & Hrb) Hrun.
    unfold leftUnits, rightUnits in *.
    unfold step, push, incLeft, incRight; simpl.
    apply running_true in Hrun.
    repeat (case_match; simpl);
      rewrite ?countType_app, ?countType_singleton; simpl;
      repeat match goal with
             | H : (_ <=? _) = true |- _ => apply Nat.leb_le in H
             | H : (_ <=? _) = false |- _ => apply Nat.leb_gt in H
             end;
      repeat split; lia.
  - apply running_false in Hexit. lia.
Qed.

(** ** Coverage *)

Lemma numbered_take_S lines i line :
  lines !! i = Some line ->
  numbered (take (S i) lines) = numbered (take i lines) ++ [(Some line, i + 1)].
Proof.
  intros Hline. unfold numbered.
  rewrite (take_S_r _ _ _ Hline), imap_app. simpl.
  rewrite length_take_le by (apply lookup_lt_Some in Hline; lia).
  by rewrite Nat.add_0_r.
Qed.

(** The left-hand units of the script are the lines of the left sequence,
    each once, in order and with its number; likewise on the right.  The
    unchanged units belong to both sides, with their left number. *)
Lemma script_covers leftLines rightLines :
  position <$> filter onLeft (computeLineDiff leftLines rightLines)
  = numbered leftLines
  /\ content <$> filter onRight (computeLineDiff leftLines rightLines)
     = Some <$> rightLines.
Proof.
  destruct (computeLineDiff_invariant leftLines rightLines
    (fun st =>
       leftIdx st <= length leftLines /\ rightIdx st <= length rightLines
       /\ position <$> filter onLeft (result st)
          = numbered (take (leftIdx st) leftLines)
       /\ content <$> filter onRight (result st)
          = Some <$> take (rightIdx st) rightLines))
    as (final & (Hlb & Hrb & Hl & Hr) & Hexit & <-).
  - simpl. rewrite !take_0. repeat split; lia.
  - intros st (Hlb & Hrb & Hl & Hr) Hrun.
    assert (forall line, leftLines !! leftIdx st = Some line ->
              (position <$> filter onLeft (result st))
                ++ [(Some line, leftIdx st + 1)]
              = numbered (take (S (leftIdx st)) leftLines)
              /\ S (leftIdx st) <= length leftLines) as Hleft.
    { intros line Hline. rewrite (numbered_take_S _ _ _ Hline), <- Hl.
      split; [done | by eapply lookup_lt_Some]. }
    assert (forall line, rightLines !! rightIdx st = Some line ->
              (content <$> filter onRight (result st)) ++ [Some line]
              = Some <$> take (S (rightIdx st)) rightLines
              /\ S (rightIdx st) <= length rightLines) as Hright.
    { intros line Hline. rewrite (take_S_r _ _ _ Hline), fmap_app, <- Hr.
      split; [done | by eapply lookup_lt_Some]. }
    apply running_true in Hrun.
    unfold step, push, incLeft, incRight.
    destruct (length leftLines <=? leftIdx st) eqn:El;
      [apply Nat.leb_le in El | apply Nat.leb_gt in El];
    (destruct (length rightLines <=? rightIdx st) eqn:Er;
      [apply Nat.leb_le in Er | apply Nat.leb_gt in Er]);
    try (destruct (lookup_lt_is_Some_2 _ _ El) as [ll Hll];
         destruct (Hleft _ Hll) as [HL1 HL2]; rewrite Hll);
    try (destruct (lookup_lt_is_Some_2 _ _ Er) as [rl Hrl];
         destruct (Hright _ Hrl) as [HR1 HR2]; rewrite Hrl);
    try lia;
    repeat case_match; simpl;
    rewrite ?filter_app, ?fmap_app, ?filter_cons, ?filter_nil; simpl;
    repeat (case_decide as Hside;
            [|try (exfalso; apply Hside; unfold onLeft, onRight; simpl; tauto)];
            try (exfalso; unfold onLeft, onRight in Hside; simpl in Hside;
                 by intuition));
    simpl; rewrite ?app_nil_r, <- ?app_assoc; simpl;
    rewrite ?fmap_app in *; simpl in *;
    repeat split; try lia; try done.
    by simplify_eq.
  - apply running_false in Hexit.
    rewrite Hl, Hr, !take_ge by lia. done.
Qed.

(** ** Lookahead and tie-break *)

Lemma scanAhead_spec lines target i n :
  scanAhead lines target i n = true <->
  exists k, k < n /\ lines !! (i + k) = target.
Proof.
  revert i. induction n as [|n IH]; intros i; simpl.
  - split; [done | intros (k & ? & _); lia].
  - case_bool_decide as Hi.
    + split; [|done]. intros _. exists 0. rewrite Nat.add_0_r. split; [lia|done].
    + rewrite IH. split.
      * intros (k & ? & Hk). exists (S k).
        rewrite <- Nat.add_succ_comm. split; [lia|done].
      * intros ([|k] & ? & Hk).
        { rewrite Nat.add_0_r in Hk. done. }
        exists k. rewrite Nat.add_succ_comm. split; [lia|done].
Qed.

(** A defined line is found by the lookahead exactly when it occurs one to
    four positions beyond the cursor. *)
Lemma lookahead_window lines (line : string) idx :
  scanAhead lines (Some line) (idx + 1)
    (Nat.min (idx + 5) (length lines) - (idx + 1)) = true <->
  exists k, 1 <= k <= 4 /\ lines !! (idx + k) = Some line.
Proof.
  rewrite scanAhead_spec. split.
  - intros (k & Hk & Hline). exists (S k).
    replace (idx + S k) with (idx + 1 + k) by lia. split; [lia|done].
  - intros (k & Hk & Hline). exists (k - 1).
    replace (idx + 1 + (k - 1)) with (idx + k) by lia. split; [|done].
    apply lookup_lt_Some in Hline. lia.
Qed.

(** C3.  When the lines at the two cursors differ, the current left line is
    looked for on the right at offsets 1 to 4 from the right cursor and the
    current right line on the left at offsets 1 to 4 from the left cursor,
    both from the state as it is when the iteration starts; when both
    searches succeed the iteration appends one removed unit for the current
    left line and advances the left cursor only. *)
Theorem lookahead_tie_break (leftLines rightLines : list string)
    (st : DiffState) (leftLine rightLine : string) :
  leftLines !! leftIdx st = Some leftLine ->
  rightLines !! rightIdx st = Some rightLine ->
  leftLine <> rightLine ->
  (foundInRight leftLines rightLines st = true <->
     exists k, 1 <= k <= 4 /\ rightLines !! (rightIdx st + k) = Some leftLine)
  /\ (foundInLeft leftLines rightLines st = true <->
     exists k, 1 <= k <= 4 /\ leftLines !! (leftIdx st + k) = Some rightLine)
  /\ (foundInRight leftLines rightLines st = true ->
      foundInLeft leftLines rightLines st = true ->
      step leftLines rightLines st
      = mkDiffState
          (result st ++ [mkDiffLine removed (Some leftLine) (leftIdx st + 1)])
          (leftIdx st + 1) (rightIdx st)
      /\ forall fuel,
          loop leftLines rightLines (S fuel) st
          = loop leftLines rightLines fuel (step leftLines rightLines st)).
Proof.
  intros Hl Hr Hne. split; [|split].
  - unfold foundInRight. rewrite Hl. apply lookahead_window.
  - unfold foundInLeft. rewrite Hr. apply lookahead_window.
  - intros HfR HfL. split.
    + unfold step. rewrite Hl, Hr, HfR, HfL.
      pose proof (lookup_lt_Some _ _ _ Hl) as Hll.
      pose proof (lookup_lt_Some _ _ _ Hr) as Hrl.
      apply Nat.leb_gt in Hll, Hrl. rewrite Hll, Hrl.
      rewrite bool_decide_eq_false_2 by congruence. simpl.
      unfold incLeft, push; simpl. by rewrite Nat.add_1_r.
    + intros fuel. simpl.
      assert (running leftLines rightLines st = true) as ->; [|done].
      apply running_true. left. by eapply lookup_lt_Some.
Qed.

Lemma lookahead_tie_break_witness :
  step ["x"; "y"] ["y"; "x"] initial
  = mkDiffState [mkDiffLine removed (Some "x") 1] 1 0.
Proof.
  refine (proj1 (proj2 (proj2
    (lookahead_tie_break ["x"; "y"] ["y"; "x"] initial "x" "y" _ _ _)) _ _));
    first [reflexivity | discriminate].
Defined.

(** ** Identity *)

Lemma allUnchanged_take_S lines i line :
  lines !! i = Some line ->
  allUnchanged (take (S i) lines)
  = allUnchanged (take i lines) ++ [mkDiffLine unchanged (Some line) (i + 1)].
Proof.
  intros Hline. unfold allUnchanged.
  rewrite (take_S_r _ _ _ Hline), imap_app. simpl.
  rewrite length_take_le by (apply lookup_lt_Some in Hline; lia).
  by rewrite Nat.add_0_r.
Qed.

(** C4.  Aligning a sequence with itself gives one unchanged unit per line,
    carrying the lines in order (numbered from 1), and nothing else. *)
Theorem identity_alignment (lines : list string) :
  computeLineDiff lines lines = allUnchanged lines
  /\ Forall (fun u => type u = unchanged) (computeLineDiff lines lines)
  /\ length (computeLineDiff lines lines) = length lines
  /\ content <$> computeLineDiff lines lines = Some <$> lines.
Proof.
  assert (computeLineDiff lines lines = allUnchanged lines) as ->.
  { destruct (computeLineDiff_invariant lines lines
      (fun st => leftIdx st = rightIdx st
                 /\ leftIdx st <= length lines
                 /\ result st = allUnchanged (take (leftIdx st) lines)))
      as (final & (Heq & Hle & Hres) & Hexit & <-).
    - simpl. rewrite take_0. repeat split; lia.
    - intros st (Heq & Hle & Hres) Hrun.
      assert (leftIdx st < length lines) as Hlt.
      { apply running_true in Hrun. lia. }
      destruct (lookup_lt_is_Some_2 _ _ Hlt) as [line Hline].
      unfold step. rewrite <- Heq, Hline.
      apply Nat.leb_gt in Hlt. rewrite Hlt.
      rewrite bool_decide_eq_true_2 by done. simpl.
      apply Nat.leb_gt in Hlt.
      split; [lia | split; [lia|]].
      by rewrite Hres, (allUnchanged_take_S _ _ _ Hline).
    - apply running_false in Hexit.
      by rewrite Hres, take_ge by lia. }
  unfold allUnchanged. repeat split.
  - apply Forall_forall. intros u (i & line & -> & _)%elem_of_lookup_imap.
    done.
  - apply length_imap.
  - apply list_eq. intros i.
    rewrite !list_lookup_fmap, list_lookup_imap.
    by destruct (lines !! i).
Qed.

(** ** Modified pairs *)

Lemma Paired_adjacent script :
  Paired script ->
  forall i,
    (typeAt script i = Some modified_old ->
     typeAt script (S i) = Some modified_new)
    /\ (typeAt script i = Some modified_new ->
        exists j, i = S j /\ typeAt script j = Some modified_old).
Proof.
  unfold typeAt.
  induction 1 as [|script u Hp IH Hold Hnew|script u v Hp IH Hu Hv]; intros i.
  - rewrite lookup_nil. by split.
  - destruct (Nat.lt_trichotomy i (length script)) as [Hi|[->|Hi]].
    + destruct (IH i) as [IHold IHnew]. split.
      * rewrite lookup_app_l by done. intros Hty.
        specialize (IHold Hty).
        assert (S i < length script).
        { destruct (script !! S i) eqn:E; [|done].
          by eapply lookup_lt_Some. }
        by rewrite lookup_app_l.
      * rewrite lookup_app_l by done. intros (j & -> & Hj)%IHnew.
        exists j. split; [done|]. by rewrite lookup_app_l by lia.
    + rewrite list_lookup_middle by done. simpl.
      split; intros [=]; congruence.
    + rewrite lookup_ge_None_2 by (rewrite length_app; simpl; lia).
      by split.
  - destruct (Nat.lt_trichotomy i (length script)) as [Hi|[->|Hi]].
    + destruct (IH i) as [IHold IHnew]. split.
      * rewrite lookup_app_l by done. intros Hty.
        specialize (IHold Hty).
        assert (S i < length script).
        { destruct (script !! S i) eqn:E; [|done].
          by eapply lookup_lt_Some. }
        by rewrite lookup_app_l.
      * rewrite lookup_app_l by done. intros (j & -> & Hj)%IHnew.
        exists j. split; [done|]. by rewrite lookup_app_l by lia.
    + split.
      * intros _. rewrite lookup_app_r by lia.
        replace (S (length script) - length script) with 1 by lia.
        simpl. by rewrite Hv.
      * rewrite lookup_app_r by lia. rewrite Nat.sub_diag. simpl.
        intros [=]; congruence.
    + rewrite !lookup_app_r by lia.
      destruct (i - length script) as [|[|k]] eqn:Hk; simpl; [lia| |].
      * split; [intros [=]; congruence|]. intros _.
        exists (length script). split; [lia|].
        rewrite lookup_app_r by lia. rewrite Nat.sub_diag. simpl.
        by rewrite Hu.
      * by split.
Qed.

Lemma computeLineDiff_Paired leftLines rightLines :
  Paired (computeLineDiff leftLines rightLines).
Proof.
  destruct (computeLineDiff_invariant leftLines rightLines
    (fun st => Paired (result st))) as (final & Hp & _ & <-); [..|done].
  - constructor.
  - intros st Hp _. unfold step, push, incLeft, incRight.
    repeat case_match; simpl;
      try (by apply Paired_single);
      rewrite <- app_assoc; simpl; by apply Paired_pair.
Qed.

(** C5.  In every script the aligner returns, a modified-old unit is
    directly followed by a modified-new unit and a modified-new unit is
    directly preceded by a modified-old unit; the unit types have no
    separate merged form of a modification. *)
Theorem modified_pairs_adjacent (leftLines rightLines : list string) (i : nat) :
  let script := computeLineDiff leftLines rightLines in
  (typeAt script i = Some modified_old ->
   typeAt script (S i) = Some modified_new)
  /\ (typeAt script i = Some modified_new ->
      exists j, i = S j /\ typeAt script j = Some modified_old)
  /\ (forall t, typeAt script i = Some t ->
        t = unchanged \/ t = added \/ t = removed
        \/ t = modified_old \/ t = modified_new).
Proof.
  intros script.
  destruct (Paired_adjacent script (computeLineDiff_Paired _ _) i) as [H1 H2].
  repeat split; [done..|].
  intros []; tauto.
Qed.

Lemma modified_pairs_adjacent_witness :
  typeAt (computeLineDiff ["a"; "b"; "c"] ["a"; "x"; "c"]) 2
  = Some modified_new.
Proof.
  apply (proj1 (modified_pairs_adjacent ["a"; "b"; "c"] ["a"; "x"; "c"] 1)).
  reflexivity.
Defined.

(** ** Termination *)

(** C6.  Every iteration of the loop leaves no cursor behind and moves at
    least one of them forward by one; the guard fails exactly when both
    cursors have reached the ends of their sequences; hence the loop
    returns, within [length leftLines + length rightLines] iterations, the
    script [computeLineDiff] denotes, and further iterations are never
    used. *)
Theorem computeLineDiff_terminates (leftLines rightLines : list string) :
  (forall st, running leftLines rightLines st = true ->
     leftIdx st <= leftIdx (step leftLines rightLines st) <= length leftLines `max` leftIdx st
     /\ rightIdx st <= rightIdx (step leftLines rightLines st) <= length rightLines `max` rightIdx st
     /\ leftIdx st + rightIdx st
        < leftIdx (step leftLines rightLines st)
          + rightIdx (step leftLines rightLines st))
  /\ (forall st, running leftLines rightLines st = false <->
        length leftLines <= leftIdx st /\ length rightLines <= rightIdx st)
  /\ (forall fuel, length leftLines + length rightLines <= fuel ->
        loop leftLines rightLines fuel initial
        = Some (computeLineDiff leftLines rightLines)).
Proof.
  split; [|split].
  - intros st Hrun.
    destruct (step_shape leftLines rightLines st)
      as (us & dl & dr & -> & ? & ? & ? & Hdl & Hdr); simpl.
    assert (dl = 1 -> leftIdx st < length leftLines) by auto.
    assert (dr = 1 -> rightIdx st < length rightLines) by auto.
    lia.
  - apply running_false.
  - intros fuel Hfuel.
    eapply loop_more_fuel; [apply computeLineDiff_loop | done].
Qed.

Lemma computeLineDiff_terminates_witness :
  loop ["a"; "c"] ["a"; "b"; "c"] 7 initial
  = Some (computeLineDiff ["a"; "c"] ["a"; "b"; "c"]).
Proof.
  apply (proj2 (proj2 (computeLineDiff_terminates ["a"; "c"] ["a"; "b"; "c"]))).
  simpl. lia.
Defined.

(** ** Values *)

(** Induction on values, with the induction hypothesis on every element of
    an array and on every property value of an object. *)
Section value_induction.
Variable P : value -> Prop.
Hypothesis Hundefined : P VUndefined.
Hypothesis Hnull : P VNull.
Hypothesis Hbool : forall b, P (VBool b).
Hypothesis Hnumber : forall n, P (VNumber n).
Hypothesis Hstring : forall s, P (VString s).
Hypothesis Harray : forall elems, Forall P elems -> P (VArray elems).
Hypothesis Hobject :
  forall props, Forall (fun kv => P kv.2) props -> P (VObject props).

Lemma value_ind : forall v, P v.
Proof.
  fix IH 1. intros [| |b|n|s|elems|props].
  - exact Hundefined.
  - exact Hnull.
  - apply Hbool.
  - apply Hnumber.
  - apply Hstring.
  - apply Harray.
    induction elems as [|e elems IHelems]; constructor;
      [apply IH | exact IHelems].
  - apply Hobject.
    induction props as [|[k v] props IHprops]; constructor;
      [apply IH | exact IHprops].
Qed.
End value_induction.

(** ** The order of sort() *)

Lemma keyLe_alt k1 k2 : keyLe k1 k2 <-> k1 = k2 \/ String_as_OT.lt k1 k2.
Proof.
  unfold keyLe.
  destruct (String_as_OT.compare_spec k1 k2) as [Heq|Hlt|Hgt].
  - split; [auto | done].
  - split; [auto | done].
  - split; [done|]. intros [->|Hlt]; exfalso.
    + by eapply (irreflexivity String_as_OT.lt).
    + eapply (irreflexivity String_as_OT.lt). by etrans.
Qed.

Global Instance keyLe_total : Total keyLe.
Proof.
  intros k1 k2. rewrite !keyLe_alt.
  destruct (String_as_OT.compare_spec k1 k2); auto.
Qed.

Global Instance keyLe_trans : Transitive keyLe.
Proof.
  intros k1 k2 k3. rewrite !keyLe_alt.
  intros [->|H12] [->|H23]; auto. right. by etrans.
Qed.

Global Instance keyLe_antisymm : AntiSymm (=) keyLe.
Proof.
  intros k1 k2. rewrite !keyLe_alt. intros [->|H12] [H|H21]; auto.
  exfalso. eapply (irreflexivity String_as_OT.lt). by etrans.
Qed.

Lemma arraySort_sorted keys : StronglySorted keyLe (arraySort keys).
Proof. apply StronglySorted_merge_sort; apply _. Qed.

Lemma arraySort_elem_of keys k : k ∈ arraySort keys <-> k ∈ keys.
Proof. unfold arraySort. by rewrite merge_sort_Permutation. Qed.

(** The sorted list only depends on which keys there are and how often. *)
Lemma arraySort_Permutation keys1 keys2 :
  keys1 ≡ₚ keys2 -> arraySort keys1 = arraySort keys2.
Proof.
  intros Hperm. apply (StronglySorted_unique keyLe).
  - apply arraySort_sorted.
  - apply arraySort_sorted.
  - unfold arraySort. by rewrite !merge_sort_Permutation.
Qed.

(** ** The order of own keys *)

Lemma arrayIndex_inj k1 k2 n :
  arrayIndex k1 = Some n -> arrayIndex k2 = Some n -> k1 = k2.
Proof.
  unfold arrayIndex. intros H1 H2.
  destruct (NilZero.uint_of_string k1) as [d1|]; [|done].
  destruct (NilZero.uint_of_string k2) as [d2|]; [|done].
  simpl in *.
  destruct (bool_decide _) eqn:E1 in H1; [|done].
  destruct (bool_decide _) eqn:E2 in H2; [|done].
  apply bool_decide_eq_true in E1, E2.
  destruct (_ <? _)%N in H1; [|done].
  destruct (_ <? _)%N in H2; [|done].
  simpl in *. congruence.
Qed.

Global Instance canonicalBefore_irrefl : Irreflexive canonicalBefore.
Proof.
  intros k H. unfold canonicalBefore in H.
  destruct (arrayIndex k); [lia|].
  by apply (irreflexivity String_as_OT.lt) in H.
Qed.

Global Instance canonicalBefore_trans : Transitive canonicalBefore.
Proof.
  intros k1 k2 k3. unfold canonicalBefore.
  destruct (arrayIndex k1), (arrayIndex k2), (arrayIndex k3);
    try done; try lia.
  apply (transitivity (R:=String_as_OT.lt)).
Qed.

Global Instance canonicalBefore_antisymm : AntiSymm (=) canonicalBefore.
Proof.
  intros k1 k2 H12 H21. exfalso.
  apply (irreflexivity canonicalBefore k1). by etrans.
Qed.

Lemma canonical_NoDup props : canonical props -> NoDup (ownKeys props).
Proof.
  unfold canonical. induction 1 as [|k keys _ IH Hall]; constructor; [|done].
  intros Hin. rewrite Forall_forall in Hall.
  by apply (irreflexivity canonicalBefore k), Hall.
Qed.

(** ** Property assignment *)

Lemma ownKeys_overwrite props key v :
  ownKeys (overwrite props key v) = ownKeys props.
Proof.
  unfold ownKeys. induction props as [|[k w] props IH]; csimpl; [done|].
  case_decide; csimpl; [done|]. by rewrite IH.
Qed.

Lemma getProperty_overwrite props key v k' :
  key ∈ ownKeys props ->
  getProperty (overwrite props key v) k'
  = if decide (k' = key) then v else getProperty props k'.
Proof.
  unfold ownKeys. induction props as [|[k w] props IH]; csimpl.
  - by intros ?%elem_of_nil.
  - intros Hin. destruct (decide (k = key)) as [->|Hne]; csimpl.
    + repeat case_decide; congruence.
    + apply elem_of_cons in Hin as [?|Hin]; [congruence|].
      rewrite (IH Hin). repeat case_decide; congruence.
Qed.

Lemma insertIndexed_Permutation n key v props :
  ownKeys (insertIndexed n key v props) ≡ₚ key :: ownKeys props.
Proof.
  unfold ownKeys. induction props as [|[k w] props IH]; csimpl; [done|].
  destruct (arrayIndex k) as [m|]; [|done].
  destruct (m <? n)%N; [|done]. csimpl. rewrite IH. apply Permutation_swap.
Qed.

Lemma getProperty_insertIndexed n key v props k' :
  key ∉ ownKeys props ->
  getProperty (insertIndexed n key v props) k'
  = if decide (k' = key) then v else getProperty props k'.
Proof.
  unfold ownKeys. induction props as [|[k w] props IH]; csimpl.
  - intros _. repeat case_decide; congruence.
  - intros [Hne Hnin]%not_elem_of_cons.
    destruct (arrayIndex k) as [m|]; [destruct (m <? n)%N|]; csimpl;
      rewrite ?(IH Hnin); repeat case_decide; congruence.
Qed.

Lemma getProperty_app_singleton props key v k' :
  key ∉ ownKeys props ->
  getProperty (props ++ [(key, v)]) k'
  = if decide (k' = key) then v else getProperty props k'.
Proof.
  unfold ownKeys. induction props as [|[k w] props IH]; csimpl.
  - intros _. repeat case_decide; congruence.
  - intros [Hne Hnin]%not_elem_of_cons.
    rewrite (IH Hnin). repeat case_decide; congruence.
Qed.

Lemma insertIndexed_canonical n key v props :
  arrayIndex key = Some n -> key ∉ ownKeys props ->
  canonical props -> canonical (insertIndexed n key v props).
Proof.
  intros Hkey. unfold canonical, ownKeys.
  induction props as [|[k w] props IH]; csimpl.
  - intros _ _. repeat constructor.
  - intros [Hne Hnin]%not_elem_of_cons [Hsorted Hall]%StronglySorted_inv.
    assert (canonicalBefore key k ->
            StronglySorted canonicalBefore (key :: k :: props.*1)) as Hfront.
    { intros Hbefore. repeat constructor; [done..|].
      eapply Forall_impl; [exact Hall|]. intros k' ?. by etrans. }
    destruct (arrayIndex k) as [m|] eqn:Hk.
    + destruct (m <? n)%N eqn:Hmn; csimpl.
      * constructor; [by apply IH|].
        fold (ownKeys (insertIndexed n key v props)).
        rewrite insertIndexed_Permutation. constructor; [|done].
        unfold canonicalBefore. rewrite Hk, Hkey. by apply N.ltb_lt.
      * apply Hfront. unfold canonicalBefore. rewrite Hk, Hkey.
        apply N.ltb_ge in Hmn.
        assert (m <> n) by (intros ->; by eauto using arrayIndex_inj).
        lia.
    + apply Hfront. unfold canonicalBefore. by rewrite Hk, Hkey.
Qed.

Lemma elem_of_ownKeys_setProperty props key v k' :
  k' ∈ ownKeys (setProperty props key v) <->
  k' ∈ ownKeys props \/ (k' = key /\ key <> "__proto__").
Proof.
  unfold setProperty. case_bool_decide as Hown.
  { rewrite ownKeys_overwrite. split; [auto|]. by intros [?|[-> _]]. }
  case_bool_decide as Hproto.
  { split; [auto|]. by intros [?|[_ ?]]. }
  destruct (arrayIndex key) as [n|].
  - rewrite insertIndexed_Permutation, elem_of_cons. intuition (subst; try congruence; auto).
  - unfold ownKeys. rewrite fmap_app, elem_of_app; csimpl.
    rewrite list_elem_of_singleton. intuition (subst; try congruence; auto).
Qed.

Lemma getProperty_setProperty props key v k' :
  "__proto__" ∉ ownKeys props ->
  getProperty (setProperty props key v) k'
  = if decide (k' = key /\ key <> "__proto__") then v
    else getProperty props k'.
Proof.
  intros Hnoproto. unfold setProperty. case_bool_decide as Hown.
  { rewrite getProperty_overwrite by done.
    repeat case_decide; intuition (subst; try congruence; auto). }
  case_bool_decide as Hproto.
  { case_decide; intuition (subst; try congruence; auto). }
  destruct (arrayIndex key) as [n|].
  - rewrite getProperty_insertIndexed by done.
    repeat case_decide; intuition (subst; try congruence; auto).
  - rewrite getProperty_app_singleton by done.
    repeat case_decide; intuition (subst; try congruence; auto).
Qed.

(** Assigning a key that is not below any key already there keeps the
    canonical order. *)
Lemma setProperty_canonical props key v :
  canonical props ->
  (forall k, k ∈ ownKeys props -> keyLe k key) ->
  canonical (setProperty props key v).
Proof.
  intros Hcan Hle. unfold setProperty. case_bool_decide as Hown.
  { unfold canonical. by rewrite ownKeys_overwrite. }
  case_bool_decide as Hproto; [done|].
  destruct (arrayIndex key) as [n|] eqn:Hkey.
  - by apply insertIndexed_canonical.
  - unfold canonical, ownKeys in *. rewrite fmap_app. csimpl.
    apply StronglySorted_app_2; [| done | repeat constructor].
    intros k1 k2 Hk1 Hk2. apply list_elem_of_singleton in Hk2. subst k2.
    unfold canonicalBefore. rewrite Hkey.
    destruct (arrayIndex k1); [done|].
    destruct (proj1 (keyLe_alt k1 key) (Hle _ Hk1)) as [Heq|Hlt]; [|done].
    subst k1. by destruct Hown.
Qed.

(** ** Objects built from sorted keys *)

Section build.
Variable g : string -> value.

(** The [reduce] of [sortObjectKeys], from any accumulator. *)
Local Abbreviation build :=
  (fold_left (fun sorted key => setProperty sorted key (g key))).

Lemma build_spec keys acc :
  StronglySorted keyLe keys ->
  canonical acc ->
  "__proto__" ∉ ownKeys acc ->
  (forall a k, a ∈ ownKeys acc -> k ∈ keys -> keyLe a k) ->
  canonical (build keys acc)
  /\ (forall k, k ∈ ownKeys (build keys acc) <->
        k ∈ ownKeys acc \/ (k ∈ keys /\ k <> "__proto__"))
  /\ (forall k, getProperty (build keys acc) k
        = if decide (k ∈ keys /\ k <> "__proto__") then g k
          else getProperty acc k).
Proof.
  revert acc. induction keys as [|key keys IH]; intros acc; csimpl.
  - intros _ Hcan _ _. split; [done|]. split.
    + intros k. rewrite elem_of_nil. tauto.
    + done.
  - intros [Hsorted Hall]%StronglySorted_inv Hcan Hnoproto Hle.
    rewrite Forall_forall in Hall.
    destruct (IH (setProperty acc key (g key))) as (IH1 & IH2 & IH3).
    + done.
    + apply setProperty_canonical; [done|].
      intros a Ha. apply Hle; [done | by left].
    + rewrite elem_of_ownKeys_setProperty. intuition (subst; try congruence; auto).
    + intros a k [Ha|[-> _]]%elem_of_ownKeys_setProperty Hk.
      * apply Hle; [done | by right].
      * by apply Hall.
    + split; [done|]. split.
      * intros k. rewrite IH2, elem_of_ownKeys_setProperty, elem_of_cons.
        intuition (subst; try congruence; auto).
      * intros k. rewrite IH3, getProperty_setProperty by done.
        pose proof (elem_of_cons keys k key) as Hcons.
        destruct (decide (k ∈ keys /\ k <> "__proto__")),
          (decide (k = key /\ key <> "__proto__")),
          (decide (k ∈ key :: keys /\ k <> "__proto__"));
          intuition (subst; try congruence; auto).
Qed.
End build.

(** Two canonical property lists with the same keys and the same value
    under every key are the same list. *)
Lemma canonical_unique props1 props2 :
  canonical props1 -> canonical props2 ->
  (forall k, k ∈ ownKeys props1 <-> k ∈ ownKeys props2) ->
  (forall k, k ∈ ownKeys props1 -> getProperty props1 k = getProperty props2 k) ->
  props1 = props2.
Proof.
  intros Hcan1 Hcan2 Hkeys Hvals.
  assert (ownKeys props1 = ownKeys props2) as Heq.
  { apply (StronglySorted_unique canonicalBefore); [done..|].
    apply NoDup_Permutation; auto using canonical_NoDup. }
  apply canonical_NoDup in Hcan1. clear Hcan2 Hkeys.
  revert props2 Heq Hvals Hcan1. unfold ownKeys.
  induction props1 as [|[k1 v1] props1 IH]; intros [|[k2 v2] props2];
    csimpl; try done.
  intros [= -> Heq] Hvals [Hnin Hnodup]%NoDup_cons.
  f_equal.
  - f_equal. specialize (Hvals k2 (list_elem_of_here _ _)).
    by rewrite !decide_True in Hvals.
  - apply IH; [done| |done].
    intros k Hk. specialize (Hvals k (list_elem_of_further _ _ _ Hk)).
    rewrite !decide_False in Hvals by (intros ->; done). done.
Qed.

(** ** sortObjectKeys *)

Lemma getProperty_map (f : value -> value) props key :
  f VUndefined = VUndefined ->
  getProperty (map (fun kv => (kv.1, f kv.2)) props) key
  = f (getProperty props key).
Proof.
  intros Hf. induction props as [|[k v] props IH]; simpl; [done|].
  by case_decide.
Qed.

Lemma fold_left_ext_keys {A} (f1 f2 : A -> string -> A) keys acc :
  (forall a k, f1 a k = f2 a k) ->
  fold_left f1 keys acc = fold_left f2 keys acc.
Proof.
  intros Hf. revert acc.
  induction keys as [|k keys IH]; intros acc; simpl; [done|].
  by rewrite Hf, IH.
Qed.

(** The object case as the source has it: the keys are sorted and each is
    assigned, to an initially empty object, the sorted copy of the value it
    has in [obj]. *)
Lemma sortObjectKeys_object props :
  sortObjectKeys (VObject props)
  = VObject
      (fold_left
         (fun sorted key =>
            setProperty sorted key (sortObjectKeys (getProperty props key)))
         (arraySort (ownKeys props)) []).
Proof.
  simpl. f_equal. apply fold_left_ext_keys. intros sorted key.
  by rewrite getProperty_map.
Qed.

Lemma sortObjectKeys_array elems :
  sortObjectKeys (VArray elems) = VArray (map sortObjectKeys elems).
Proof. done. Qed.

(** What the object case builds: a canonical object with the keys of
    [props] other than ["__proto__"], each with the sorted copy of its
    value. *)
Lemma sortObjectKeys_object_spec props :
  exists sorted,
    sortObjectKeys (VObject props) = VObject sorted
    /\ canonical sorted
    /\ (forall k, k ∈ ownKeys sorted <->
          k ∈ ownKeys props /\ k <> "__proto__")
    /\ (forall k, k ∈ ownKeys sorted ->
          getProperty sorted k = sortObjectKeys (getProperty props k)).
Proof.
  eexists. split; [apply sortObjectKeys_object|].
  destruct (build_spec (fun k => sortObjectKeys (getProperty props k))
              (arraySort (ownKeys props)) [])
    as (Hcan & Hkeys & Hvals).
  - apply arraySort_sorted.
  - constructor.
  - apply not_elem_of_nil.
  - by intros a k ?%elem_of_nil.
  - split; [done|]. split.
    + intros k. rewrite Hkeys, arraySort_elem_of.
      split; [by intros [?%elem_of_nil|?] | auto].
    + intros k Hk. rewrite Hvals. apply Hkeys in Hk as [?%elem_of_nil|Hk]; [done|].
      by rewrite decide_True.
Qed.

Lemma sortObjectKeys_idempotent v :
  sortObjectKeys (sortObjectKeys v) = sortObjectKeys v.
Proof.
  induction v as [| | | | |elems IH|props IH] using value_ind; try done.
  - rewrite !sortObjectKeys_array. f_equal. rewrite map_map.
    induction IH as [|e elems He _ IHelems]; simpl; [done|].
    by rewrite He, IHelems.
  - assert (forall k, sortObjectKeys (sortObjectKeys (getProperty props k))
                      = sortObjectKeys (getProperty props k)) as Hget.
    { intros k. induction IH as [|[k' v'] props' Hv _ IHprops]; simpl; [done|].
      by case_decide. }
    destruct (sortObjectKeys_object_spec props)
      as (once & -> & Hcan1 & Hkeys1 & Hvals1).
    destruct (sortObjectKeys_object_spec once)
      as (twice & -> & Hcan2 & Hkeys2 & Hvals2).
    f_equal. apply canonical_unique; [done..| |].
    + intros k. rewrite Hkeys2, Hkeys1. tauto.
    + intros k Hk. rewrite Hvals2 by done.
      apply Hkeys2 in Hk as [Hk _].
      by rewrite Hvals1, Hget.
Qed.

(** C7.  Sorting the keys of a value that already went through
    [sortObjectKeys] changes nothing; hence, whatever the serializer and the
    indentation, the document produced from the sorted value by a preset
    that sorts keys is the document produced from the value itself, and
    serializing after one or after two sorting passes gives one document. *)
Theorem sort_idempotence `{Host} (v : value) :
  sortObjectKeys (sortObjectKeys v) = sortObjectKeys v
  /\ (forall name indent,
        formatParsed (sortObjectKeys v) (mkFormatPreset name indent true)
        = formatParsed v (mkFormatPreset name indent true))
  /\ (forall indent,
        formatJson (sortObjectKeys (sortObjectKeys v)) indent
        = formatJson (sortObjectKeys v) indent).
Proof.
  split; [apply sortObjectKeys_idempotent|]. split.
  - intros name indent. unfold formatParsed. simpl.
    by rewrite sortObjectKeys_idempotent.
  - intros indent. by rewrite sortObjectKeys_idempotent.
Qed.

(** Beautifying the text that a key-sorting preset produced gives that text
    again, provided the parser reads it back as the value that was
    serialized. *)
Lemma beautifyJson_twice `{Host} input v name indent :
  let preset := mkFormatPreset name indent true in
  JSON_parse input = inl v ->
  JSON_parse (beautifyJson input preset).1 = inl (sortObjectKeys v) ->
  beautifyJson (beautifyJson input preset).1 preset
  = beautifyJson input preset.
Proof.
  intros preset Hparse Hback. unfold beautifyJson in *.
  rewrite Hparse in *. simpl in *. rewrite Hback.
  unfold formatParsed. simpl. by rewrite sortObjectKeys_idempotent.
Qed.

(** C10.  An own property named ["__proto__"], which [JSON.parse] creates
    like any other, is not copied: the assignment [sorted[key] = ...]
    reaches the [__proto__] setter of [Object.prototype] instead of creating
    a property, so the key is missing from the result. *)
Theorem sortObjectKeys_drops_proto :
  sortObjectKeys (VObject [("__proto__", VNumber 1); ("a", VNumber 2)])
  = VObject [("a", VNumber 2)]
  /\ sortObjectKeys
       (VArray [VObject [("b", VNull); ("__proto__", VObject [("x", VBool true)])]])
     = VArray [VObject [("b", VNull)]].
Proof. split; reflexivity. Qed.

(** Apart from that key the structure is kept: primitives are returned as
    they are, arrays are mapped element by element, and an object comes
    back with its other keys, each holding the sorted copy of its value. *)
Lemma sortObjectKeys_structure :
  sortObjectKeys VUndefined = VUndefined
  /\ sortObjectKeys VNull = VNull
  /\ (forall b, sortObjectKeys (VBool b) = VBool b)
  /\ (forall n, sortObjectKeys (VNumber n) = VNumber n)
  /\ (forall s, sortObjectKeys (VString s) = VString s)
  /\ (forall elems,
        sortObjectKeys (VArray elems) = VArray (sortObjectKeys <$> elems))
  /\ (forall props, exists sorted,
        sortObjectKeys (VObject props) = VObject sorted
        /\ NoDup (ownKeys sorted)
        /\ (forall k, k ∈ ownKeys sorted <->
              k ∈ ownKeys props /\ k <> "__proto__")
        /\ (forall k, k ∈ ownKeys sorted ->
              getProperty sorted k = sortObjectKeys (getProperty props k))).
Proof.
  repeat split; try done.
  intros props.
  destruct (sortObjectKeys_object_spec props) as (sorted & ? & ? & ? & ?).
  exists sorted. eauto using canonical_NoDup.
Qed.

(** ** Headings in formatMarkdown *)

Lemma length_repeatChar c n : String.length (repeatChar c n) = n.
Proof. induction n; simpl; congruence. Qed.

Lemma span_markers n text :
  match text with
  | String c _ => isHash c = false
  | EmptyString => True
  end ->
  span isHash (repeatChar "#" n +:+ text) = (repeatChar "#" n, text).
Proof.
  intros Htext. induction n as [|n IH]; simpl.
  - destruct text as [|c rest]; simpl; [done|]. by rewrite Htext.
  - by rewrite IH.
Qed.

(** C8, as stated, fails on the line "#   Title": the markers are followed
    by white space, the heading pattern does not match, and the three
    spaces stay. *)
Lemma heading_extra_space_kept :
  formatMarkdown "#   Title" md_standard = String.append "#   Title" (String "010" "")
  /\ formatMarkdown "#   Title" md_standard <> String.append "# Title" (String "010" "")
  /\ normalizeHeading "#   Title" = "#   Title".
Proof. split; [reflexivity | split; [discriminate | reflexivity]]. Qed.

(** The heading pass on a line that starts with markers: the four cases of
    what follows them. *)
Lemma normalizeHeading_cases (n : nat) (text : string) :
  (forall c rest, text = String c rest ->
     1 <= n <= 6 -> isWhiteSpace c = false -> isHash c = false ->
     matchesDotStar text = true ->
     normalizeHeading (repeatChar "#" n +:+ text)
     = repeatChar "#" n +:+ " " +:+ trim text)
  /\ (forall c rest, text = String c rest -> isWhiteSpace c = true ->
      normalizeHeading (repeatChar "#" n +:+ text) = repeatChar "#" n +:+ text)
  /\ (text = EmptyString ->
      normalizeHeading (repeatChar "#" n +:+ text) = repeatChar "#" n +:+ text)
  /\ (forall c rest, text = String c rest -> isHash c = false -> 6 < n ->
      normalizeHeading (repeatChar "#" n +:+ text) = repeatChar "#" n +:+ text).
Proof.
  unfold normalizeHeading, matchHeading. repeat split.
  - intros c rest -> Hn Hws Hhash Hdot.
    rewrite span_markers by done. rewrite length_repeatChar, Hws, Hhash, Hdot.
    destruct Hn as [Hn1 Hn6].
    apply Nat.leb_le in Hn1, Hn6. by rewrite Hn1, Hn6.
  - intros c rest -> Hws.
    assert (isHash c = false) as Hhash.
    { unfold isWhiteSpace, isHash in *.
      destruct (Ascii.eqb_spec c "#") as [->|]; [done|done]. }
    rewrite span_markers by done. rewrite Hws.
    by rewrite !andb_false_r.
  - intros ->. by rewrite span_markers.
  - intros c rest -> Hhash Hn. rewrite span_markers by done.
    rewrite length_repeatChar.
    assert ((n <=? 6) = false) as -> by (apply Nat.leb_gt; lia).
    by rewrite andb_false_r.
Qed.

(** The list pass leaves a line that starts with ['#'] alone. *)
Lemma normalizeListItem_heading indentSize line rest :
  line = String "#" rest -> normalizeListItem indentSize line = line.
Proof.
  intros ->. unfold normalizeListItem, matchUnordered, matchOrdered. simpl.
  by destruct (span isWhiteSpace rest).
Qed.

(** The other passes on a one-line document that is a heading. *)

Lemma append_cons c s1 s2 : String c s1 +:+ s2 = String c (s1 +:+ s2).
Proof. done. Qed.

Lemma append_assoc s1 s2 s3 : (s1 +:+ s2) +:+ s3 = s1 +:+ s2 +:+ s3.
Proof.
  induction s1 as [|c s1 IH]; [done|]. by rewrite !append_cons, IH.
Qed.

Lemma append_empty_r s : s +:+ "" = s.
Proof. induction s as [|c s IH]; [done|]. by rewrite append_cons, IH. Qed.

Lemma allChars_app p s1 s2 :
  allChars p (s1 +:+ s2) = allChars p s1 && allChars p s2.
Proof. induction s1 as [|c s1 IH]; simpl; [done|]. by rewrite IH, andb_assoc. Qed.

Lemma allChars_weaken (p q : ascii -> bool) s :
  (forall c, p c = true -> q c = true) ->
  allChars p s = true -> allChars q s = true.
Proof.
  intros Hpq. induction s as [|c s IH]; simpl; [done|].
  intros [Hc Hs]%andb_true_iff. by rewrite (Hpq _ Hc), IH.
Qed.

Lemma allChars_trimEnd p s :
  allChars p s = true -> allChars p (trimEnd s) = true.
Proof.
  induction s as [|c s IH]; simpl; [done|].
  intros [Hc Hs]%andb_true_iff.
  destruct (isWhiteSpace c && isEmpty (trimEnd s)); simpl; [done|].
  by rewrite Hc, IH.
Qed.

Lemma allChars_trimStart p s :
  allChars p s = true -> allChars p (trimStart s) = true.
Proof.
  induction s as [|c s IH]; simpl; [done|].
  intros [Hc Hs]%andb_true_iff.
  destruct (isWhiteSpace c); simpl; [auto|]. by rewrite Hc, Hs.
Qed.

Lemma allChars_repeatChar p c n :
  p c = true -> allChars p (repeatChar c n) = true.
Proof. intros Hc. induction n; simpl; [done|]. by rewrite Hc. Qed.

Lemma trimEnd_idempotent s : trimEnd (trimEnd s) = trimEnd s.
Proof.
  induction s as [|c s IH]; simpl; [done|].
  destruct (isWhiteSpace c && isEmpty (trimEnd s)) eqn:E; simpl; [done|].
  by rewrite IH, E.
Qed.

Lemma trimEnd_markers n s :
  trimEnd (repeatChar "#" n +:+ s) = repeatChar "#" n +:+ trimEnd s.
Proof. induction n as [|n IH]; simpl; [done|]. by rewrite IH. Qed.

Lemma splitLines_one_line s :
  allChars (fun c => negb (Ascii.eqb c "010")) s = true ->
  splitLines s = [s].
Proof.
  induction s as [|c s IH]; simpl; [done|].
  intros [Hc Hs]%andb_true_iff. apply negb_true_iff in Hc.
  by rewrite Hc, IH.
Qed.

Lemma endsWithNewline_one_line s :
  allChars (fun c => negb (Ascii.eqb c "010")) s = true ->
  endsWithNewline s = false.
Proof.
  induction s as [|c s IH]; simpl; [done|].
  intros [Hc Hs]%andb_true_iff. apply negb_true_iff in Hc.
  destruct s; [done | auto].
Qed.

(** On a document that is one heading line lacking the space, the whole
    of [formatMarkdown] inserts it, trims the text, and adds the final
    newline if the preset asks for one. *)
Lemma formatMarkdown_heading_line preset n c rest :
  let text := String c rest in
  normalizeHeadings preset = true ->
  1 <= n <= 6 -> isWhiteSpace c = false -> isHash c = false ->
  matchesDotStar text = true ->
  formatMarkdown (repeatChar "#" n +:+ text) preset
  = repeatChar "#" n +:+ " " +:+ trim text
    +:+ (if ensureNewlineAtEnd preset then String "010" "" else "").
Proof.
  intros text Hheadings Hn Hws Hhash Hdot. unfold formatMarkdown.
  set (oneLine := fun c => negb (Ascii.eqb c "010")).
  assert (forall s, matchesDotStar s = true -> allChars oneLine s = true)
    as Hone.
  { intros s. apply allChars_weaken. intros a.
    unfold isLineTerminator, oneLine.
    destruct (Ascii.eqb_spec a "010") as [->|]; done. }
  rewrite splitLines_one_line by
    (rewrite allChars_app, andb_true_iff; split;
     [by apply allChars_repeatChar | by apply Hone]).
  rewrite Hheadings.
  set (heading := repeatChar "#" n +:+ " " +:+ trim text).
  assert (map normalizeHeading
            (if trimTrailingWhitespace preset
             then map trimEnd [repeatChar "#" n +:+ text]
             else [repeatChar "#" n +:+ text]) = [heading]) as ->.
  { destruct (trimTrailingWhitespace preset); simpl.
    - assert (trimEnd text = String c (trimEnd rest)) as Htext.
      { subst text. simpl. by rewrite Hws. }
      rewrite trimEnd_markers, Htext.
      rewrite (proj1 (normalizeHeading_cases n (String c (trimEnd rest)))
                 c (trimEnd rest)); try done.
      + rewrite <- Htext. unfold heading, trim.
        by rewrite trimEnd_idempotent.
      + rewrite <- Htext. by apply allChars_trimEnd.
    - by rewrite (proj1 (normalizeHeading_cases n text) c rest). }
  assert (exists tail, heading = String "#" tail) as [tail Htail].
  { unfold heading. destruct n as [|n']; [lia|]. simpl. eauto. }
  assert (map (normalizeListItem (normalizeListIndent preset)) [heading]
          = [heading]) as ->.
  { simpl. by rewrite (normalizeListItem_heading _ _ _ Htail). }
  assert ((if normalizeBlankLines preset
           then collapseBlankLines 0 [heading] else [heading]) = [heading])
    as ->.
  { destruct (normalizeBlankLines preset); [|done]. simpl.
    rewrite Htail. unfold trim. simpl. done. }
  cbn [joinLines].
  rewrite endsWithNewline_one_line.
  - unfold heading.
    destruct (ensureNewlineAtEnd preset); simpl;
      by rewrite ?append_assoc, ?append_empty_r.
  - unfold heading. rewrite !allChars_app, !andb_true_iff. repeat split.
    + by apply allChars_repeatChar.
    + apply allChars_trimStart, allChars_trimEnd. by apply Hone.
Qed.

(** ** compareDiff on input that does not parse *)




(* ================================================================== *)
(** * Part III: further properties                                     *)
(* ================================================================== *)

(** ** What a unit of the script says *)

(** Every unit of the script carries the text of the line its number points
    to, 1-based; no unit has an undefined content. *)
Lemma units_carry_lines (leftLines rightLines : list string) :
  Forall (carriesLine leftLines rightLines)
    (computeLineDiff leftLines rightLines).
Proof.
  destruct (computeLineDiff_invariant leftLines rightLines
    (fun st => Forall (carriesLine leftLines rightLines) (result st)))
    as (final & Hall & _ & <-); [..|done].
  - constructor.
  - intros st Hall Hrun. apply running_true in Hrun.
    assert (forall t, (t = unchanged \/ t = removed \/ t = modified_old) ->
              leftIdx st < length leftLines ->
              carriesLine leftLines rightLines
                (mkDiffLine t (leftLines !! leftIdx st) (leftIdx st + 1)))
      as Hleft.
    { intros t Ht Hlt. unfold carriesLine. simpl.
      replace (leftIdx st + 1 - 1) with (leftIdx st) by lia.
      split; [lia|]. split; [by apply lookup_lt_is_Some_2|].
      by destruct Ht as [->|[->| ->]]. }
    assert (forall t, (t = added \/ t = modified_new) ->
              rightIdx st < length rightLines ->
              carriesLine leftLines rightLines
                (mkDiffLine t (rightLines !! rightIdx st) (rightIdx st + 1)))
      as Hright.
    { intros t Ht Hlt. unfold carriesLine. simpl.
      replace (rightIdx st + 1 - 1) with (rightIdx st) by lia.
      split; [lia|]. split; [by apply lookup_lt_is_Some_2|].
      by destruct Ht as [->| ->]. }
    unfold step, push, incLeft, incRight.
    destruct (length leftLines <=? leftIdx st) eqn:El;
      [apply Nat.leb_le in El | apply Nat.leb_gt in El];
    (destruct (length rightLines <=? rightIdx st) eqn:Er;
      [apply Nat.leb_le in Er | apply Nat.leb_gt in Er]);
    try lia; repeat case_match; simpl;
    rewrite ?Forall_app, ?Forall_singleton; repeat split;
    first [done | apply Hleft; [tauto | lia] | apply Hright; [tauto | lia]].
Qed.

(** The edit script is a faithful interleaving of the two sequences.  Its
    unchanged, removed and modified-old units, read in order, are the lines
    of the left sequence with their numbers; its unchanged, added and
    modified-new units are the lines of the right sequence; and every unit
    carries the defined text of the line its number points to, on its own
    side. *)
Lemma edit_script_faithful (leftLines rightLines : list string) :
  let script := computeLineDiff leftLines rightLines in
  position <$> filter onLeft script = numbered leftLines
  /\ content <$> filter onRight script = Some <$> rightLines
  /\ Forall (carriesLine leftLines rightLines) script.
Proof.
  intros script.
  destruct (script_covers leftLines rightLines) as [Hleft Hright].
  split; [done|]. split; [done|]. apply units_carry_lines.
Qed.

(** ** One side empty, and a common prefix *)

Lemma allOfType_take_S t lines i line :
  lines !! i = Some line ->
  allOfType t (take (S i) lines)
  = allOfType t (take i lines) ++ [mkDiffLine t (Some line) (i + 1)].
Proof.
  intros Hline. unfold allOfType.
  rewrite (take_S_r _ _ _ Hline), imap_app. simpl.
  rewrite length_take_le by (apply lookup_lt_Some in Hline; lia).
  by rewrite Nat.add_0_r.
Qed.

(** With nothing on the left every right line is reported added, and with
    nothing on the right every left line is reported removed, in order and
    numbered from 1. *)
Lemma one_side_empty (lines : list string) :
  computeLineDiff [] lines = allOfType added lines
  /\ computeLineDiff lines [] = allOfType removed lines.
Proof.
  split.
  - destruct (computeLineDiff_invariant [] lines
      (fun st => leftIdx st = 0 /\ rightIdx st <= length lines
                 /\ result st = allOfType added (take (rightIdx st) lines)))
      as (final & (Hl & Hle & Hres) & Hexit & <-).
    + simpl. rewrite take_0. repeat split; lia.
    + intros st (Hl & Hle & Hres) Hrun.
      apply running_true in Hrun. simpl in Hrun.
      assert (rightIdx st < length lines) as Hlt by lia.
      destruct (lookup_lt_is_Some_2 _ _ Hlt) as [line Hline].
      unfold step. simpl. rewrite Hline. simpl.
      split; [done|]. split; [lia|].
      by rewrite Hres, (allOfType_take_S _ _ _ _ Hline).
    + apply running_false in Hexit. by rewrite Hres, take_ge by lia.
  - destruct (computeLineDiff_invariant lines []
      (fun st => rightIdx st = 0 /\ leftIdx st <= length lines
                 /\ result st = allOfType removed (take (leftIdx st) lines)))
      as (final & (Hr & Hle & Hres) & Hexit & <-).
    + simpl. rewrite take_0. repeat split; lia.
    + intros st (Hr & Hle & Hres) Hrun.
      apply running_true in Hrun. simpl in Hrun.
      assert (leftIdx st < length lines) as Hlt by lia.
      destruct (lookup_lt_is_Some_2 _ _ Hlt) as [line Hline].
      unfold step. simpl. rewrite Hline.
      pose proof Hlt as Hlt'. apply Nat.leb_gt in Hlt'. rewrite Hlt'. simpl.
      split; [done|]. split; [lia|].
      by rewrite Hres, (allOfType_take_S _ _ _ _ Hline).
    + apply running_false in Hexit. by rewrite Hres, take_ge by lia.
Qed.

Section CommonPrefix.
Variables prefix leftLines rightLines : list string.

(** The state of the aligner on the prefixed sequences that corresponds to
    a state on the sequences without the prefix. *)
Local Abbreviation shifted st :=
  (mkDiffState
     (allOfType unchanged prefix ++ renumber (length prefix) (result st))
     (length prefix + leftIdx st) (length prefix + rightIdx st)).

Lemma scanAhead_prefix lines target i n :
  scanAhead (prefix ++ lines) target (length prefix + i) n
  = scanAhead lines target i n.
Proof.
  revert i. induction n as [|n IH]; intros i; simpl; [done|].
  rewrite lookup_app_r by lia.
  replace (length prefix + i - length prefix) with i by lia.
  replace (S (length prefix + i)) with (length prefix + S i) by lia.
  by rewrite IH.
Qed.

Lemma renumber_snoc n script u :
  renumber n (script ++ [u])
  = renumber n script ++ [mkDiffLine (type u) (content u) (n + lineNumber u)].
Proof. unfold renumber. by rewrite fmap_app. Qed.

Lemma running_shifted st :
  running (prefix ++ leftLines) (prefix ++ rightLines) (shifted st)
  = running leftLines rightLines st.
Proof.
  unfold running. simpl. rewrite !length_app.
  destruct (Nat.ltb_spec (leftIdx st) (length leftLines)),
    (Nat.ltb_spec (rightIdx st) (length rightLines)),
    (Nat.ltb_spec (length prefix + leftIdx st)
       (length prefix + length leftLines)),
    (Nat.ltb_spec (length prefix + rightIdx st)
       (length prefix + length rightLines)); simpl; lia || done.
Qed.

Lemma step_shifted st :
  step (prefix ++ leftLines) (prefix ++ rightLines) (shifted st)
  = shifted (step leftLines rightLines st).
Proof.
  unfold step, foundInRight, foundInLeft. simpl.
  rewrite !length_app, !lookup_app_r by lia.
  replace (length prefix + leftIdx st - length prefix)
    with (leftIdx st) by lia.
  replace (length prefix + rightIdx st - length prefix)
    with (rightIdx st) by lia.
  replace (length prefix + length leftLines <=? length prefix + leftIdx st)
    with (length leftLines <=? leftIdx st)
    by (destruct (Nat.leb_spec (length leftLines) (leftIdx st)),
          (Nat.leb_spec (length prefix + length leftLines)
             (length prefix + leftIdx st)); lia || done).
  replace (length prefix + length rightLines <=? length prefix + rightIdx st)
    with (length rightLines <=? rightIdx st)
    by (destruct (Nat.leb_spec (length rightLines) (rightIdx st)),
          (Nat.leb_spec (length prefix + length rightLines)
             (length prefix + rightIdx st)); lia || done).
  replace (length prefix + rightIdx st + 1)
    with (length prefix + (rightIdx st + 1)) by lia.
  replace (length prefix + leftIdx st + 1)
    with (length prefix + (leftIdx st + 1)) by lia.
  rewrite !scanAhead_prefix.
  replace ((length prefix + rightIdx st + 5)
             `min` (length prefix + length rightLines)
           - (length prefix + (rightIdx st + 1)))
    with ((rightIdx st + 5) `min` length rightLines - (rightIdx st + 1))
    by lia.
  replace ((length prefix + leftIdx st + 5)
             `min` (length prefix + length leftLines)
           - (length prefix + (leftIdx st + 1)))
    with ((leftIdx st + 5) `min` length leftLines - (leftIdx st + 1))
    by lia.
  unfold push, incLeft, incRight.
  repeat case_match; simpl;
    rewrite ?renumber_snoc, <- ?app_assoc, ?renumber_snoc; simpl;
    rewrite <- ?app_assoc; simpl;
    rewrite ?Nat.add_succ_r; done.
Qed.

Lemma loop_shifted fuel st :
  loop (prefix ++ leftLines) (prefix ++ rightLines) fuel (shifted st)
  = (fun script =>
       allOfType unchanged prefix ++ renumber (length prefix) script)
    <$> loop leftLines rightLines fuel st.
Proof.
  revert st. induction fuel as [|fuel IH]; intros st.
  - cbn [loop]. rewrite running_shifted.
    by destruct (running leftLines rightLines st).
  - cbn [loop]. rewrite running_shifted.
    destruct (running leftLines rightLines st); [|done].
    by rewrite step_shifted, IH.
Qed.
End CommonPrefix.

Lemma prefix_phase prefix leftLines rightLines fuel d i :
  i + d = length prefix ->
  loop (prefix ++ leftLines) (prefix ++ rightLines) (d + fuel)
    (mkDiffState (allOfType unchanged (take i prefix)) i i)
  = loop (prefix ++ leftLines) (prefix ++ rightLines) fuel
      (mkDiffState (allOfType unchanged prefix)
         (length prefix) (length prefix)).
Proof.
  revert i. induction d as [|d IH]; intros i Hi.
  - replace i with (length prefix) by lia. by rewrite take_ge by lia.
  - assert (i < length prefix) as Hlt by lia.
    destruct (lookup_lt_is_Some_2 _ _ Hlt) as [line Hline].
    change (S d + fuel) with (S (d + fuel)).
    rewrite loop_continue.
    2:{ apply running_true. simpl. rewrite length_app. lia. }
    assert (step (prefix ++ leftLines) (prefix ++ rightLines)
              (mkDiffState (allOfType unchanged (take i prefix)) i i)
            = mkDiffState (allOfType unchanged (take (S i) prefix))
                (S i) (S i)) as ->.
    { unfold step. simpl. rewrite !length_app.
      rewrite !lookup_app_l by done. rewrite Hline.
      assert ((length prefix + length leftLines <=? i) = false) as ->
        by (apply Nat.leb_gt; lia).
      assert ((length prefix + length rightLines <=? i) = false) as ->
        by (apply Nat.leb_gt; lia).
      rewrite bool_decide_eq_true_2 by done. simpl.
      by rewrite (allOfType_take_S _ _ _ _ Hline). }
    apply IH. lia.
Qed.

Lemma computeLineDiff_prefix (prefix leftLines rightLines : list string) :
  computeLineDiff (prefix ++ leftLines) (prefix ++ rightLines)
  = allOfType unchanged prefix
    ++ renumber (length prefix) (computeLineDiff leftLines rightLines).
Proof.
  unfold computeLineDiff at 1. rewrite !length_app.
  replace (length prefix + length leftLines
           + (length prefix + length rightLines))
    with (length prefix
          + (length prefix + length leftLines + length rightLines)) by lia.
  change initial with (mkDiffState (allOfType unchanged (take 0 prefix)) 0 0).
  rewrite (prefix_phase _ _ _ _ (length prefix) 0) by lia.
  pose proof (loop_shifted prefix leftLines rightLines
    (length prefix + length leftLines + length rightLines) initial) as Hsim.
  simpl in Hsim. rewrite app_nil_r, !Nat.add_0_r in Hsim. rewrite Hsim.
  rewrite (loop_more_fuel leftLines rightLines
             (length leftLines + length rightLines) _ _
             (computeLineDiff leftLines rightLines));
    [done | apply computeLineDiff_loop | lia].
Qed.

(** A common prefix is reported unchanged, and what follows it is aligned
    as it would be alone, with every line number raised by the length of
    the prefix. *)
Lemma common_prefix (prefix leftLines rightLines : list string) :
  computeLineDiff (prefix ++ leftLines) (prefix ++ rightLines)
  = allOfType unchanged prefix
    ++ renumber (length prefix) (computeLineDiff leftLines rightLines).
Proof. apply computeLineDiff_prefix. Qed.

(** Lines appended to a sequence are reported added after the unchanged
    original, and lines cut off its end are reported removed. *)
Lemma appended_or_truncated (lines extra : list string) :
  computeLineDiff lines (lines ++ extra)
  = allOfType unchanged lines
    ++ renumber (length lines) (allOfType added extra)
  /\ computeLineDiff (lines ++ extra) lines
     = allOfType unchanged lines
       ++ renumber (length lines) (allOfType removed extra).
Proof.
  pose proof (computeLineDiff_prefix lines [] extra) as Hadd.
  pose proof (computeLineDiff_prefix lines extra []) as Hdel.
  rewrite app_nil_r in Hadd, Hdel.
  destruct (one_side_empty extra) as [Hadded Hremoved].
  by rewrite Hadd, Hdel, Hadded, Hremoved.
Qed.

(** Two equal sequences, without going through the loop again. *)
Lemma computeLineDiff_same lines :
  computeLineDiff lines lines = allOfType unchanged lines.
Proof.
  pose proof (computeLineDiff_prefix lines [] []) as H.
  change (computeLineDiff [] []) with (@nil DiffLine) in H.
  simpl in H. by rewrite !app_nil_r in H.
Qed.

(** ** The statistics *)

Lemma countLines_spec addedN removedN modifiedN script :
  countLines addedN removedN modifiedN script
  = mkDiffStats (addedN + countType added script)
      (removedN + countType removed script)
      (modifiedN + countType modified_old script).
Proof.
  revert addedN removedN modifiedN.
  induction script as [|u script IH]; intros a r m; simpl.
  - unfold countType. simpl. by rewrite !Nat.add_0_r.
  - change (u :: script) with ([u] ++ script).
    rewrite !countType_app, !countType_singleton.
    destruct (type u); rewrite IH; simpl; f_equal; lia.
Qed.

Lemma Paired_counts script :
  Paired script ->
  countType modified_old script = countType modified_new script.
Proof.
  induction 1 as [|script u _ IH Hold Hnew|script u v _ IH Hu Hv].
  - done.
  - rewrite !countType_app, !countType_singleton, IH.
    by rewrite !decide_False.
  - change [u; v] with ([u] ++ [v]).
    rewrite !countType_app, !countType_singleton, IH, Hu, Hv. simpl. lia.
Qed.

Lemma length_filter_onLeft script :
  length (filter onLeft script) = leftUnits script.
Proof.
  unfold leftUnits. induction script as [|u script IH]; [done|].
  change (u :: script) with ([u] ++ script).
  rewrite filter_app, length_app, !countType_app, !countType_singleton, IH.
  rewrite filter_cons, filter_nil.
  destruct (decide (onLeft u)) as [H|H]; unfold onLeft in H;
    destruct (type u); simpl; try lia;
    exfalso; (apply H; tauto) || (destruct H as [|[|]]; congruence).
Qed.

Lemma length_filter_onRight script :
  length (filter onRight script) = rightUnits script.
Proof.
  unfold rightUnits. induction script as [|u script IH]; [done|].
  change (u :: script) with ([u] ++ script).
  rewrite filter_app, length_app, !countType_app, !countType_singleton, IH.
  rewrite filter_cons, filter_nil.
  destruct (decide (onRight u)) as [H|H]; unfold onRight in H;
    destruct (type u); simpl; try lia;
    exfalso; (apply H; tauto) || (destruct H as [|[|]]; congruence).
Qed.

(** The counts of the summary account for the difference in length of the
    two sequences: the lines added, with the left length, make the lines
    removed with the right length.  A modified pair counts once, so the
    count of modifications is also the number of modified-new units. *)
Lemma stats_balance (leftLines rightLines : list string) :
  let script := computeLineDiff leftLines rightLines in
  addedCount (stats (Some script)) + length leftLines
  = removedCount (stats (Some script)) + length rightLines
  /\ modifiedCount (stats (Some script)) = countType modified_new script
  /\ length script
     = countType unchanged script + addedCount (stats (Some script))
       + removedCount (stats (Some script))
       + 2 * modifiedCount (stats (Some script)).
Proof.
  intros script. unfold stats. rewrite countLines_spec. simpl.
  destruct (script_covers leftLines rightLines) as [Hleft Hright].
  apply (f_equal length) in Hleft. apply (f_equal length) in Hright.
  rewrite !length_fmap in Hleft. rewrite !length_fmap in Hright.
  unfold numbered in Hleft. rewrite length_imap in Hleft.
  rewrite length_filter_onLeft in Hleft.
  rewrite length_filter_onRight in Hright.
  pose proof (Paired_counts _ (computeLineDiff_Paired leftLines rightLines))
    as Hpairs.
  fold script in Hleft, Hright, Hpairs.
  unfold leftUnits, rightUnits in *.
  assert (length script
          = countType unchanged script + countType added script
            + countType removed script + countType modified_old script
            + countType modified_new script) as Hlen.
  { clear. induction script as [|u script IH]; [done|].
    change (u :: script) with ([u] ++ script).
    rewrite !countType_app, !countType_singleton. simpl length.
    rewrite IH. destruct (type u); simpl; lia. }
  repeat split; lia.
Qed.

Lemma countType_zero t script :
  countType t script = 0 <-> Forall (fun u => type u <> t) script.
Proof.
  induction script as [|u script IH].
  - split; [constructor | done].
  - change (u :: script) with ([u] ++ script).
    rewrite countType_app, countType_singleton, Forall_app, Forall_singleton.
    rewrite <- IH. case_decide; split; try lia; try tauto.
Qed.

Lemma filter_Forall_id (P : DiffLine -> Prop) `{!forall u, Decision (P u)}
    (script : list DiffLine) :
  Forall P script -> filter P script = script.
Proof.
  induction 1 as [|u script Hu _ IH]; [done|].
  by rewrite filter_cons, decide_True, IH.
Qed.

Lemma all_unchanged_equal leftLines rightLines :
  Forall (fun u => type u = unchanged) (computeLineDiff leftLines rightLines)
  -> leftLines = rightLines.
Proof.
  intros Hall.
  destruct (script_covers leftLines rightLines) as [Hleft Hright].
  rewrite filter_Forall_id in Hleft
    by (eapply Forall_impl; [exact Hall|]; unfold onLeft; tauto).
  rewrite filter_Forall_id in Hright
    by (eapply Forall_impl; [exact Hall|]; unfold onRight; tauto).
  apply (f_equal (fmap fst)) in Hleft.
  rewrite <- list_fmap_compose in Hleft.
  change (fst ∘ position) with content in Hleft.
  rewrite Hright in Hleft.
  unfold numbered in Hleft.
  assert (fst <$> imap (fun i line => (Some line, i + 1)) leftLines
          = Some <$> leftLines) as Himap.
  { apply list_eq. intros i.
    rewrite !list_lookup_fmap, list_lookup_imap.
    by destruct (leftLines !! i). }
  rewrite Himap in Hleft.
  symmetry. eapply (inj (fmap Some)). exact Hleft.
Qed.

(** The summary shows no addition, removal or modification exactly when
    the two sequences are equal. *)
Lemma stats_zero_iff_equal (leftLines rightLines : list string) :
  stats (Some (computeLineDiff leftLines rightLines)) = mkDiffStats 0 0 0
  <-> leftLines = rightLines.
Proof.
  unfold stats. rewrite countLines_spec. simpl. split.
  - intros [= Ha Hr Hm].
    pose proof (Paired_counts _ (computeLineDiff_Paired leftLines rightLines))
      as Hpairs.
    rewrite Hm in Hpairs. symmetry in Hpairs.
    apply countType_zero in Ha, Hr, Hm, Hpairs.
    apply all_unchanged_equal.
    rewrite Forall_forall in *. intros u Hu.
    specialize (Ha u Hu). specialize (Hr u Hu).
    specialize (Hm u Hu). specialize (Hpairs u Hu).
    by destruct (type u).
  - intros <-. rewrite computeLineDiff_same.
    assert (forall t, t <> unchanged ->
              countType t (allOfType unchanged leftLines) = 0) as Hzero.
    { intros t Ht. apply countType_zero, Forall_forall.
      intros u (i & line & -> & _)%elem_of_lookup_imap. simpl. congruence. }
    by rewrite !Hzero.
Qed.

(** For markdown, changes are reported exactly when the line sequences
    differ. *)
Lemma hasChanges_markdown {D : Type} (leftLines rightLines : list string)
    (semanticDiff : option D) :
  hasChanges markdown (Some (computeLineDiff leftLines rightLines))
    semanticDiff = false
  <-> leftLines = rightLines.
Proof.
  simpl. split.
  - intros Hnone. apply all_unchanged_equal, Forall_forall. intros u Hu.
    destruct (decide (type u = unchanged)) as [|Hne]; [done|].
    assert (existsb
              (fun line => negb (bool_decide (type line = unchanged)))
              (computeLineDiff leftLines rightLines) = true) as Hex.
    { apply existsb_exists. exists u.
      split; [by apply list_elem_of_In|].
      by rewrite bool_decide_eq_false_2. }
    congruence.
  - intros <-. rewrite computeLineDiff_same.
    apply not_true_iff_false. intros (u & Hu & Hty)%existsb_exists.
    apply list_elem_of_In in Hu.
    apply elem_of_lookup_imap in Hu as (i & line & -> & _).
    done.
Qed.

(** ** Splitting and joining lines *)

Lemma splitLines_nonempty s : splitLines s <> [].
Proof.
  destruct s as [|c s]; simpl; [done|].
  destruct (Ascii.eqb c "010"); [done|]. by destruct (splitLines s).
Qed.

Lemma joinLines_cons line lines :
  lines <> [] ->
  joinLines (line :: lines) = line +:+ String "010" (joinLines lines).
Proof. by destruct lines. Qed.

(** Joining the lines of a text gives the text back. *)
Lemma join_split (s : string) : joinLines (splitLines s) = s.
Proof.
  induction s as [|c s IH]; [done|]. simpl.
  destruct (Ascii.eqb_spec c "010") as [->|Hc].
  - rewrite joinLines_cons by apply splitLines_nonempty. by rewrite IH.
  - pose proof (splitLines_nonempty s) as Hne.
    destruct (splitLines s) as [|line lines]; [done|].
    destruct lines as [|line' lines].
    + simpl in *. by rewrite IH.
    + rewrite joinLines_cons in IH by done.
      rewrite joinLines_cons by done. rewrite append_cons. by rewrite IH.
Qed.

Lemma splitLines_line_then line s :
  allChars noNewline line = true ->
  splitLines (line +:+ String "010" s) = line :: splitLines s.
Proof.
  induction line as [|c line IH]; [done|].
  rewrite append_cons. cbn [allChars splitLines].
  intros [Hc Hline]%andb_true_iff. apply negb_true_iff in Hc.
  by rewrite Hc, IH.
Qed.

(** Splitting the text joined from lines gives the lines back, provided
    there is at least one line and no line contains a line feed. *)
Lemma split_join (lines : list string) :
  lines <> [] ->
  Forall (fun line => allChars noNewline line = true) lines ->
  splitLines (joinLines lines) = lines.
Proof.
  intros Hne Hall. induction Hall as [|line lines Hline Hall IH]; [done|].
  destruct lines as [|line' lines].
  - simpl. by apply splitLines_one_line.
  - rewrite joinLines_cons by done.
    rewrite splitLines_line_then by done. by rewrite IH.
Qed.

Lemma split_join_witness :
  splitLines (joinLines ["# Title"; ""; "text"]) = ["# Title"; ""; "text"].
Proof.
  apply split_join; [discriminate|].
  repeat constructor.
Defined.

Lemma splitLines_noNewline s :
  Forall (fun line => allChars noNewline line = true) (splitLines s).
Proof.
  induction s as [|c s IH]; simpl; [by repeat constructor|].
  destruct (Ascii.eqb_spec c "010") as [->|Hc].
  - by constructor.
  - destruct (splitLines s) as [|line lines]; simpl.
    + repeat constructor. unfold noNewline. simpl.
      by destruct (Ascii.eqb_spec c "010").
    + apply Forall_cons in IH as [Hline Hlines]. constructor; [|done].
      simpl. rewrite Hline. unfold noNewline.
      by destruct (Ascii.eqb_spec c "010").
Qed.

Lemma splitLines_inj s1 s2 : splitLines s1 = splitLines s2 -> s1 = s2.
Proof.
  intros H. by rewrite <- (join_split s1), <- (join_split s2), H.
Qed.

(** ** The blank-line pass *)

Lemma collapseBlankLines_counter n lines :
  collapseBlankLines (S n) lines = collapseBlankLines 1 lines.
Proof.
  revert n. induction lines as [|line lines IH]; intros n; [done|].
  cbn [collapseBlankLines]. destruct (isEmpty (trim line)); [|done].
  change (S (S n) <=? 1) with false. change (2 <=? 1) with false.
  by rewrite (IH (S n)), (IH 1).
Qed.

Lemma collapseBlankLines_free n lines :
  blankRunFree (0 <? n) (collapseBlankLines n lines) = true.
Proof.
  revert n. induction lines as [|line lines IH]; intros n; [done|].
  cbn [collapseBlankLines]. destruct (isEmpty (trim line)) eqn:Hblank.
  - destruct n as [|n].
    + change (1 <=? 1) with true. cbn [blankRunFree]. unfold isBlank.
      rewrite Hblank. simpl. apply (IH 1).
    + change (S (S n) <=? 1) with false.
      rewrite collapseBlankLines_counter. apply (IH 1).
  - cbn [blankRunFree]. unfold isBlank. rewrite Hblank. apply (IH 0).
Qed.

Lemma collapseBlankLines_fixed n lines :
  blankRunFree (0 <? n) lines = true -> collapseBlankLines n lines = lines.
Proof.
  revert n. induction lines as [|line lines IH]; intros n; [done|].
  cbn [collapseBlankLines blankRunFree]. unfold isBlank.
  destruct (isEmpty (trim line)).
  - destruct n as [|n]; [|done]. simpl. intros H. by rewrite (IH 1).
  - intros H. by rewrite (IH 0).
Qed.

Lemma blankRunFree_adjacent afterBlank lines i a b :
  blankRunFree afterBlank lines = true ->
  lines !! i = Some a -> lines !! S i = Some b ->
  isBlank a = true -> isBlank b = false.
Proof.
  revert afterBlank i. induction lines as [|line lines IH];
    intros afterBlank i; [done|].
  cbn [blankRunFree]. destruct i as [|i]; simpl.
  - intros Hfree [= ->] Hb Ha. rewrite Ha in Hfree.
    apply andb_true_iff in Hfree as [_ Hfree].
    destruct lines as [|line' lines]; [done|]. simpl in Hb.
    injection Hb as ->. cbn [blankRunFree] in Hfree.
    destruct (isBlank b); [done|done].
  - intros Hfree. destruct (isBlank line).
    + apply andb_true_iff in Hfree as [_ Hfree]. by apply (IH true).
    + by apply (IH false).
Qed.

Lemma collapseBlankLines_keeps n lines :
  filter (fun line => isBlank line = false) (collapseBlankLines n lines)
  = filter (fun line => isBlank line = false) lines.
Proof.
  revert n. induction lines as [|line lines IH]; intros n; [done|].
  cbn [collapseBlankLines]. unfold isBlank at 3.
  destruct (isEmpty (trim line)) eqn:Hblank.
  - rewrite (filter_cons _ line lines), decide_False
      by (unfold isBlank; by rewrite Hblank).
    destruct (S n <=? 1); [|done].
    rewrite filter_cons, decide_False
      by (unfold isBlank; by rewrite Hblank). done.
  - rewrite !filter_cons, !decide_True
      by (unfold isBlank; by rewrite Hblank).
    by rewrite IH.
Qed.

(** The blank-line pass leaves at most one blank line in a row (two blank
    neighbours never survive), keeps every non-blank line in its order, and
    changes nothing when applied again. *)
Lemma collapseBlankLines_spec (lines : list string) :
  (forall i a b,
     collapseBlankLines 0 lines !! i = Some a ->
     collapseBlankLines 0 lines !! S i = Some b ->
     isBlank a = true -> isBlank b = false)
  /\ filter (fun line => isBlank line = false) (collapseBlankLines 0 lines)
     = filter (fun line => isBlank line = false) lines
  /\ collapseBlankLines 0 (collapseBlankLines 0 lines)
     = collapseBlankLines 0 lines.
Proof.
  split; [|split].
  - intros i a b. apply (blankRunFree_adjacent false).
    apply (collapseBlankLines_free 0).
  - apply collapseBlankLines_keeps.
  - apply (collapseBlankLines_fixed 0), (collapseBlankLines_free 0).
Qed.

Lemma collapseBlankLines_spec_witness :
  isBlank "b" = false.
Proof.
  apply (proj1 (collapseBlankLines_spec ["a"; ""; " "; ""; "b"]) 1 "" "b");
    reflexivity.
Defined.

(** ** The final newline *)

Lemma endsWithNewline_append s :
  endsWithNewline (s +:+ String "010" "") = true.
Proof.
  induction s as [|c s IH]; [done|]. rewrite append_cons.
  cbn [endsWithNewline]. destruct (s +:+ String "010" "") eqn:E; [|done].
  by destruct s.
Qed.

(** With [ensureNewlineAtEnd] the formatted markdown always ends in a line
    feed, whatever the content, the empty one included. *)
Lemma formatMarkdown_ends_with_newline (content : string)
    (preset : MarkdownPreset) :
  ensureNewlineAtEnd preset = true ->
  endsWithNewline (formatMarkdown content preset) = true.
Proof.
  intros Hflag. unfold formatMarkdown. rewrite Hflag. simpl.
  destruct (endsWithNewline (joinLines _)) eqn:E; simpl; [done|].
  apply endsWithNewline_append.
Qed.

Lemma formatMarkdown_ends_with_newline_witness :
  endsWithNewline (formatMarkdown "" md_standard) = true.
Proof. by apply formatMarkdown_ends_with_newline. Defined.

(** ** The list pass *)

Lemma span_app p pre post :
  allChars p pre = true -> startsOutside p post ->
  span p (pre +:+ post) = (pre, post).
Proof.
  intros Hpre Hpost. induction pre as [|c pre IH].
  - destruct post as [|c post]; simpl in *; [done|]. by rewrite Hpost.
  - rewrite append_cons. simpl in *.
    apply andb_true_iff in Hpre as [Hc Hpre]. by rewrite Hc, IH.
Qed.

Lemma span_spec p s pre post :
  span p s = (pre, post) ->
  s = pre +:+ post /\ allChars p pre = true /\ startsOutside p post.
Proof.
  revert pre post. induction s as [|c s IH]; intros pre post; simpl.
  - by intros [= <- <-].
  - destruct (p c) eqn:Hc.
    + destruct (span p s) as [pre' post'] eqn:E. intros [= <- <-].
      destruct (IH _ _ eq_refl) as (-> & Hpre & Hpost).
      rewrite append_cons. simpl. by rewrite Hc, Hpre.
    + intros [= <- <-]. by simpl.
Qed.

Lemma isBullet_not_space b : isBullet b = true -> isWhiteSpace b = false.
Proof.
  destruct b as [[|] [|] [|] [|] [|] [|] [|] [|]]; by vm_compute.
Qed.

Lemma isDigit_not_space c : isDigit c = true -> isWhiteSpace c = false.
Proof.
  destruct c as [[|] [|] [|] [|] [|] [|] [|] [|]]; by vm_compute.
Qed.

Lemma isDigit_not_bullet c : isDigit c = true -> isBullet c = false.
Proof.
  destruct c as [[|] [|] [|] [|] [|] [|] [|] [|]]; by vm_compute.
Qed.

Lemma isEmpty_false s : isEmpty s = false <-> s <> "".
Proof. by destruct s. Qed.

Lemma normalizeListItem_unordered (indentSize : nat) (lead gap text : string) (b : ascii) :
  allChars isWhiteSpace lead = true -> isBullet b = true ->
  allChars isWhiteSpace gap = true -> gap <> "" ->
  startsOutside isWhiteSpace text -> matchesDotStar text = true ->
  normalizeListItem indentSize (lead +:+ String b (gap +:+ text))
  = repeatChar " " (String.length lead / 2 * indentSize)
    +:+ String b (String " " text).
Proof.
  intros Hlead Hb Hgap Hne Htext Hdot.
  unfold normalizeListItem, matchUnordered.
  rewrite (span_app _ lead) by (simpl; auto using isBullet_not_space).
  rewrite span_app by done.
  rewrite Hb, Hdot, (proj2 (isEmpty_false gap) Hne). simpl. done.
Qed.

(** The list pass on an unordered item, that is a line made of a run of
    white space, one of the three bullets, a non-empty run of white space
    and a text that does not start with white space.  When the text holds
    no line terminator, the leading white space is replaced by [indentSize]
    spaces per two characters of it, the white space after the bullet by
    one space, and the text is kept; when the text holds a carriage return
    or a line feed, the line is left as it is. *)
Lemma unordered_item (indentSize : nat) (lead gap text : string) (b : ascii) :
  allChars isWhiteSpace lead = true -> isBullet b = true ->
  allChars isWhiteSpace gap = true -> gap <> "" ->
  startsOutside isWhiteSpace text ->
  normalizeListItem indentSize (lead +:+ String b (gap +:+ text))
  = if matchesDotStar text
    then repeatChar " " (String.length lead / 2 * indentSize)
         +:+ String b (String " " text)
    else lead +:+ String b (gap +:+ text).
Proof.
  intros Hlead Hb Hgap Hne Htext.
  destruct (matchesDotStar text) eqn:Hdot.
  { by apply normalizeListItem_unordered. }
  assert (isDigit b = false) as Hdigit.
  { destruct (isDigit b) eqn:Hd; [|done].
    apply isDigit_not_bullet in Hd. congruence. }
  unfold normalizeListItem, matchUnordered, matchOrdered.
  rewrite (span_app _ lead) by (simpl; auto using isBullet_not_space).
  rewrite span_app by done.
  rewrite Hdot, andb_false_r. cbn [span]. rewrite Hdigit.
  by rewrite span_app by done.
Qed.

Lemma unordered_item_witness :
  normalizeListItem 4 "   *   nested item" = "    * nested item".
Proof.
  apply (unordered_item 4 "   " "   " "nested item" "*");
    first [reflexivity | discriminate].
Defined.

Lemma normalizeListItem_ordered (indentSize : nat) (lead digits gap text : string) :
  allChars isWhiteSpace lead = true ->
  allChars isDigit digits = true -> digits <> "" ->
  allChars isWhiteSpace gap = true -> gap <> "" ->
  startsOutside isWhiteSpace text -> matchesDotStar text = true ->
  normalizeListItem indentSize
    (lead +:+ digits +:+ String "." (gap +:+ text))
  = repeatChar " " (String.length lead / 2 * indentSize)
    +:+ (digits +:+ ".") +:+ String " " text.
Proof.
  intros Hlead Hdigits Hdne Hgap Hne Htext Hdot.
  destruct digits as [|d digits]; [done|].
  simpl in Hdigits. apply andb_true_iff in Hdigits as [Hd Hdigits].
  unfold normalizeListItem, matchUnordered, matchOrdered.
  rewrite (span_app _ lead)
    by (rewrite ?append_cons; simpl; auto using isDigit_not_space).
  rewrite append_cons.
  destruct (span isWhiteSpace (digits +:+ String "." (gap +:+ text)))
    as [gap0 text0].
  rewrite (isDigit_not_bullet d Hd). simpl.
  rewrite Hd, (span_app isDigit digits) by done. simpl.
  rewrite span_app by done.
  rewrite Hdot, (proj2 (isEmpty_false gap) Hne). simpl. done.
Qed.

(** The list pass on an ordered item, that is a line made of a run of
    white space, a non-empty run of digits, a full stop, a non-empty run of
    white space and a text that does not start with white space.  When the
    text holds no line terminator, the leading white space is replaced by
    [indentSize] spaces per two characters of it, the white space after the
    full stop by one space, and the digits and the text are kept; when the
    text holds a carriage return or a line feed, the line is left as it
    is. *)
Lemma ordered_item (indentSize : nat) (lead digits gap text : string) :
  allChars isWhiteSpace lead = true ->
  allChars isDigit digits = true -> digits <> "" ->
  allChars isWhiteSpace gap = true -> gap <> "" ->
  startsOutside isWhiteSpace text ->
  normalizeListItem indentSize
    (lead +:+ digits +:+ String "." (gap +:+ text))
  = if matchesDotStar text
    then repeatChar " " (String.length lead / 2 * indentSize)
         +:+ (digits +:+ ".") +:+ String " " text
    else lead +:+ digits +:+ String "." (gap +:+ text).
Proof.
  intros Hlead Hdigits Hdne Hgap Hne Htext.
  destruct (matchesDotStar text) eqn:Hdot.
  { by apply normalizeListItem_ordered. }
  destruct digits as [|d digits]; [done|].
  simpl in Hdigits. apply andb_true_iff in Hdigits as [Hd Hdigits].
  unfold normalizeListItem, matchUnordered, matchOrdered.
  rewrite (span_app _ lead)
    by (rewrite ?append_cons; simpl; auto using isDigit_not_space).
  rewrite append_cons.
  destruct (span isWhiteSpace (digits +:+ String "." (gap +:+ text)))
    as [gap0 text0].
  rewrite (isDigit_not_bullet d Hd). simpl.
  rewrite Hd, (span_app isDigit digits) by done. simpl.
  rewrite span_app by done.
  by rewrite Hdot, !andb_false_r.
Qed.

Lemma ordered_item_witness :
  normalizeListItem 2 "    12.  twelfth" = "    12. twelfth".
Proof.
  apply (ordered_item 2 "    " "12" "  " "twelfth");
    first [reflexivity | discriminate].
Defined.

Lemma matchUnordered_inv line lead marker text :
  matchUnordered line = Some (lead, marker, text) ->
  exists b gap,
    line = lead +:+ String b (gap +:+ text) /\ marker = String b ""
    /\ allChars isWhiteSpace lead = true /\ isBullet b = true
    /\ allChars isWhiteSpace gap = true /\ gap <> ""
    /\ startsOutside isWhiteSpace text /\ matchesDotStar text = true.
Proof.
  unfold matchUnordered.
  destruct (span isWhiteSpace line) as [lead0 after] eqn:E1.
  apply span_spec in E1 as (-> & Hlead & _).
  destruct after as [|b afterMarker]; [done|].
  destruct (span isWhiteSpace afterMarker) as [gap text0] eqn:E2.
  apply span_spec in E2 as (-> & Hgap & Htext).
  destruct (isBullet b) eqn:Hb; [|done].
  destruct (isEmpty gap) eqn:Hne; [done|].
  destruct (matchesDotStar text0) eqn:Hdot; [|done].
  simpl. intros [= <- <- <-]. exists b, gap.
  by rewrite <- isEmpty_false.
Qed.

Lemma matchOrdered_inv line lead marker text :
  matchOrdered line = Some (lead, marker, text) ->
  exists digits gap,
    line = lead +:+ digits +:+ String "." (gap +:+ text)
    /\ marker = digits +:+ "."
    /\ allChars isWhiteSpace lead = true
    /\ allChars isDigit digits = true /\ digits <> ""
    /\ allChars isWhiteSpace gap = true /\ gap <> ""
    /\ startsOutside isWhiteSpace text /\ matchesDotStar text = true.
Proof.
  unfold matchOrdered.
  destruct (span isWhiteSpace line) as [lead0 after] eqn:E1.
  apply span_spec in E1 as (-> & Hlead & _).
  destruct (span isDigit after) as [digits afterDigits] eqn:E2.
  apply span_spec in E2 as (-> & Hdigits & _).
  destruct afterDigits as [|c afterMarker]; [done|].
  destruct (span isWhiteSpace afterMarker) as [gap text0] eqn:E3.
  apply span_spec in E3 as (-> & Hgap & Htext).
  destruct (isEmpty digits) eqn:Hdne; [done|].
  destruct (Ascii.eqb_spec c ".") as [Hc|]; [|done].
  destruct (isEmpty gap) eqn:Hne; [done|].
  destruct (matchesDotStar text0) eqn:Hdot; [|done].
  simpl. intros [= <- <- <-]. exists digits, gap. subst c.
  by rewrite <- !isEmpty_false.
Qed.

(** Every line is an unordered item, an ordered item, or a line the list
    pass returns as it is. *)
Lemma normalizeListItem_cases line :
  (exists lead b gap text,
     line = lead +:+ String b (gap +:+ text)
     /\ allChars isWhiteSpace lead = true /\ isBullet b = true
     /\ allChars isWhiteSpace gap = true /\ gap <> ""
     /\ startsOutside isWhiteSpace text /\ matchesDotStar text = true)
  \/ (exists lead digits gap text,
        line = lead +:+ digits +:+ String "." (gap +:+ text)
        /\ allChars isWhiteSpace lead = true
        /\ allChars isDigit digits = true /\ digits <> ""
        /\ allChars isWhiteSpace gap = true /\ gap <> ""
        /\ startsOutside isWhiteSpace text /\ matchesDotStar text = true)
  \/ (forall indentSize, normalizeListItem indentSize line = line).
Proof.
  destruct (matchUnordered line) as [[[lead marker] text]|] eqn:Eu.
  { left. apply matchUnordered_inv in Eu as (b & gap & ? & _ & ?).
    by exists lead, b, gap, text. }
  destruct (matchOrdered line) as [[[lead marker] text]|] eqn:Eo.
  { right; left. apply matchOrdered_inv in Eo as (digits & gap & ? & _ & ?).
    by exists lead, digits, gap, text. }
  right; right. intros indentSize. unfold normalizeListItem.
  by rewrite Eu, Eo.
Qed.

(** Applying the list pass to its own result: the indentation it produced
    is taken for the original one and halved again before it is multiplied.
    With the indent size 2 of the standard and compact presets the pass is
    idempotent on every line; with the size 4 of the expanded preset a
    second pass doubles the indentation of every nested item. *)
Lemma list_pass_twice :
  (forall indentSize lead gap text b,
     allChars isWhiteSpace lead = true -> isBullet b = true ->
     allChars isWhiteSpace gap = true -> gap <> "" ->
     startsOutside isWhiteSpace text -> matchesDotStar text = true ->
     normalizeListItem indentSize
       (normalizeListItem indentSize (lead +:+ String b (gap +:+ text)))
     = repeatChar " "
         ((String.length lead / 2 * indentSize) / 2 * indentSize)
       +:+ String b (String " " text))
  /\ (forall indentSize lead digits gap text,
        allChars isWhiteSpace lead = true ->
        allChars isDigit digits = true -> digits <> "" ->
        allChars isWhiteSpace gap = true -> gap <> "" ->
        startsOutside isWhiteSpace text -> matchesDotStar text = true ->
        normalizeListItem indentSize
          (normalizeListItem indentSize
             (lead +:+ digits +:+ String "." (gap +:+ text)))
        = repeatChar " "
            ((String.length lead / 2 * indentSize) / 2 * indentSize)
          +:+ (digits +:+ ".") +:+ String " " text)
  /\ (forall line,
        normalizeListItem 2 (normalizeListItem 2 line)
        = normalizeListItem 2 line).
Proof.
  assert (forall n, allChars isWhiteSpace (repeatChar " " n) = true) as Hsp
    by (intros n; by apply allChars_repeatChar).
  assert (forall indentSize lead gap text b,
     allChars isWhiteSpace lead = true -> isBullet b = true ->
     allChars isWhiteSpace gap = true -> gap <> "" ->
     startsOutside isWhiteSpace text -> matchesDotStar text = true ->
     normalizeListItem indentSize
       (normalizeListItem indentSize (lead +:+ String b (gap +:+ text)))
     = repeatChar " "
         ((String.length lead / 2 * indentSize) / 2 * indentSize)
       +:+ String b (String " " text)) as Hunordered.
  { intros indentSize lead gap text b Hlead Hb Hgap Hne Htext Hdot.
    rewrite normalizeListItem_unordered by done.
    change (String " " text) with (" " +:+ text) at 1.
    rewrite normalizeListItem_unordered by done. by rewrite length_repeatChar. }
  assert (forall indentSize lead digits gap text,
        allChars isWhiteSpace lead = true ->
        allChars isDigit digits = true -> digits <> "" ->
        allChars isWhiteSpace gap = true -> gap <> "" ->
        startsOutside isWhiteSpace text -> matchesDotStar text = true ->
        normalizeListItem indentSize
          (normalizeListItem indentSize
             (lead +:+ digits +:+ String "." (gap +:+ text)))
        = repeatChar " "
            ((String.length lead / 2 * indentSize) / 2 * indentSize)
          +:+ (digits +:+ ".") +:+ String " " text) as Hordered.
  { intros indentSize lead digits gap text Hlead Hdigits Hdne Hgap Hne
      Htext Hdot.
    rewrite normalizeListItem_ordered by done.
    rewrite (append_assoc digits "." (String " " text)).
    change ("." +:+ String " " text) with (String "." (" " +:+ text)).
    rewrite normalizeListItem_ordered by done. rewrite length_repeatChar.
    by rewrite (append_assoc digits "." (String " " text)). }
  split; [exact Hunordered|]. split; [exact Hordered|].
  intros line.
  destruct (normalizeListItem_cases line)
    as [(lead & b & gap & text & -> & ?)
       |[(lead & digits & gap & text & -> & ?)|Hsame]].
  - rewrite Hunordered by tauto. rewrite normalizeListItem_unordered by tauto.
    by rewrite Nat.div_mul.
  - rewrite Hordered by tauto. rewrite normalizeListItem_ordered by tauto.
    by rewrite Nat.div_mul.
  - by rewrite !Hsame.
Qed.

Lemma list_pass_twice_witness :
  normalizeListItem 4 (normalizeListItem 4 "  - nested")
  = "        - nested".
Proof.
  apply (proj1 list_pass_twice 4 "  " " " "nested" "-"%char);
    first [reflexivity | discriminate].
Defined.

(** ** The lines of the formatted markdown *)

Lemma formatMarkdown_joins content preset :
  formatMarkdown content preset
  = if ensureNewlineAtEnd preset
       && negb (endsWithNewline (joinLines (markdownLines content preset)))
    then joinLines (markdownLines content preset) +:+ String "010" ""
    else joinLines (markdownLines content preset).
Proof. reflexivity. Qed.

Lemma isEmpty_append a b : isEmpty b = false -> isEmpty (a +:+ b) = false.
Proof. by destruct a. Qed.

Lemma trimEnd_nonblank_app a b :
  isEmpty (trimEnd b) = false -> trimEnd (a +:+ b) = a +:+ trimEnd b.
Proof.
  intros Hb. induction a as [|c a IH]; [done|].
  rewrite !append_cons. cbn [trimEnd]. rewrite IH.
  by rewrite (isEmpty_append a _ Hb), andb_false_r.
Qed.

Lemma trimEnd_starts s :
  s <> "" -> startsOutside isWhiteSpace s -> isEmpty (trimEnd s) = false.
Proof.
  destruct s as [|c s]; [done|]. simpl. intros _ ->. done.
Qed.

Lemma trimStart_starts s : startsOutside isWhiteSpace s -> trimStart s = s.
Proof. destruct s as [|c s]; [done|]. simpl. by intros ->. Qed.

Lemma trimEnd_all_space s :
  allChars isWhiteSpace s = true -> trimEnd s = "".
Proof.
  induction s as [|c s IH]; [done|]. simpl.
  intros [Hc Hs]%andb_true_iff. by rewrite (IH Hs), Hc.
Qed.

Lemma trim_trimEnd s : trim (trimEnd s) = trim s.
Proof. unfold trim. by rewrite trimEnd_idempotent. Qed.

Lemma isBlank_nonspace lead c rest :
  allChars isWhiteSpace lead = true -> isWhiteSpace c = false ->
  isBlank (lead +:+ String c rest) = false.
Proof.
  intros Hlead Hc. unfold isBlank, trim.
  assert (isEmpty (trimEnd (String c rest)) = false) as Hne
    by (simpl; by rewrite Hc).
  rewrite trimEnd_nonblank_app by done.
  clear Hne. induction lead as [|d lead IH].
  - simpl. rewrite Hc. simpl. by rewrite Hc.
  - rewrite append_cons. simpl in Hlead.
    apply andb_true_iff in Hlead as [Hd Hlead].
    cbn [trimStart]. rewrite Hd. by apply IH.
Qed.

Lemma isBlank_cons_nonspace c rest :
  isWhiteSpace c = false -> isBlank (String c rest) = false.
Proof. intros Hc. by apply (isBlank_nonspace "" c rest). Qed.

Lemma isBlank_repeat_space n c rest :
  isWhiteSpace c = false ->
  isBlank (repeatChar " " n +:+ String c rest) = false.
Proof.
  intros Hc. apply isBlank_nonspace; [|done]. by apply allChars_repeatChar.
Qed.

(** Each pass keeps a line blank or non-blank as it was. *)
Lemma isBlank_trimEnd line : isBlank (trimEnd line) = isBlank line.
Proof. unfold isBlank. by rewrite trim_trimEnd. Qed.

Lemma matchHeading_inv line markers text :
  matchHeading line = Some (markers, text) ->
  exists n c rest,
    line = markers +:+ text /\ markers = repeatChar "#" (S n)
    /\ text = String c rest /\ isWhiteSpace c = false
    /\ matchesDotStar text = true.
Proof.
  unfold matchHeading.
  destruct (span isHash line) as [markers0 text0] eqn:E.
  apply span_spec in E as (-> & Hmarkers & _).
  destruct text0 as [|c rest]; [done|].
  destruct (1 <=? String.length markers0) eqn:H1; [|done].
  destruct (String.length markers0 <=? 6); [|done].
  destruct (isWhiteSpace c) eqn:Hws; [done|].
  destruct (isHash c); [done|].
  destruct (matchesDotStar (String c rest)) eqn:Hdot; [|done].
  simpl. intros [= <- <-].
  assert (markers0 = repeatChar "#" (String.length markers0)) as Hrep.
  { clear H1. induction markers0 as [|d markers0 IH]; [done|].
    simpl in Hmarkers. apply andb_true_iff in Hmarkers as [Hd Hm].
    unfold isHash in Hd. apply Ascii.eqb_eq in Hd. subst d.
    simpl. by rewrite <- IH. }
  destruct (String.length markers0) as [|n] eqn:Hlen; [done|].
  exists n, c, rest. repeat split; done.
Qed.

Lemma isBlank_normalizeHeading line :
  isBlank (normalizeHeading line) = isBlank line.
Proof.
  unfold normalizeHeading.
  destruct (matchHeading line) as [[markers text]|] eqn:E; [|done].
  apply matchHeading_inv in E as (n & c & rest & -> & -> & -> & Hc & _).
  change (repeatChar "#" (S n)) with (String "#" (repeatChar "#" n)).
  rewrite !append_cons.
  by rewrite !isBlank_cons_nonspace.
Qed.

Lemma isBlank_normalizeListItem indentSize line :
  isBlank (normalizeListItem indentSize line) = isBlank line.
Proof.
  destruct (normalizeListItem_cases line)
    as [(lead & b & gap & text & -> & Hlead & Hb & ?)
       |[(lead & digits & gap & text & -> & Hlead & Hd & Hdne & ?)|Hsame]].
  - rewrite normalizeListItem_unordered by tauto.
    rewrite isBlank_repeat_space by by apply isBullet_not_space.
    by rewrite isBlank_nonspace by auto using isBullet_not_space.
  - rewrite normalizeListItem_ordered by tauto.
    destruct digits as [|d digits]; [done|].
    simpl in Hd. apply andb_true_iff in Hd as [Hd _].
    rewrite !append_cons.
    rewrite isBlank_repeat_space by by apply isDigit_not_space.
    by rewrite isBlank_nonspace by auto using isDigit_not_space.
  - by rewrite Hsame.
Qed.

Lemma markdownLines_rewrite content preset :
  markdownLines content preset
  = let lines := rewriteLine preset <$> splitLines content in
    if normalizeBlankLines preset then collapseBlankLines 0 lines else lines.
Proof.
  unfold markdownLines, rewriteLine. simpl.
  assert (map (normalizeListItem (normalizeListIndent preset))
            (if normalizeHeadings preset
             then map normalizeHeading
                    (if trimTrailingWhitespace preset
                     then map trimEnd (splitLines content)
                     else splitLines content)
             else if trimTrailingWhitespace preset
                  then map trimEnd (splitLines content)
                  else splitLines content)
          = (fun line =>
               normalizeListItem (normalizeListIndent preset)
                 (if normalizeHeadings preset
                  then normalizeHeading
                         (if trimTrailingWhitespace preset
                          then trimEnd line else line)
                  else if trimTrailingWhitespace preset
                       then trimEnd line else line))
            <$> splitLines content) as ->; [|done].
  destruct (normalizeHeadings preset), (trimTrailingWhitespace preset);
    by rewrite ?map_map.
Qed.

Lemma isBlank_rewriteLine preset line :
  isBlank (rewriteLine preset line) = isBlank line.
Proof.
  unfold rewriteLine. rewrite isBlank_normalizeListItem.
  destruct (normalizeHeadings preset), (trimTrailingWhitespace preset);
    by rewrite ?isBlank_normalizeHeading, ?isBlank_trimEnd.
Qed.

Section PassesKeep.
Variable q : ascii -> bool.
Hypothesis q_space : q " " = true.

Lemma allChars_normalizeHeading line :
  allChars q line = true -> allChars q (normalizeHeading line) = true.
Proof.
  unfold normalizeHeading.
  destruct (matchHeading line) as [[markers text]|] eqn:E; [|done].
  apply matchHeading_inv in E as (n & c & rest & -> & _ & _ & _ & _).
  rewrite !allChars_app. intros [Hm Ht]%andb_true_iff.
  rewrite Hm. simpl. rewrite q_space. simpl.
  unfold trim. by apply allChars_trimStart, allChars_trimEnd.
Qed.

Lemma allChars_normalizeListItem indentSize line :
  allChars q line = true ->
  allChars q (normalizeListItem indentSize line) = true.
Proof.
  destruct (normalizeListItem_cases line)
    as [(lead & b & gap & text & -> & ?)
       |[(lead & digits & gap & text & -> & ?)|Hsame]].
  - rewrite normalizeListItem_unordered by tauto.
    rewrite !allChars_app. cbn [allChars]. rewrite !allChars_app.
    intros [_ [Hb [_ Ht]%andb_true_iff]%andb_true_iff]%andb_true_iff.
    rewrite allChars_repeatChar by done. by rewrite Hb, q_space, Ht.
  - rewrite normalizeListItem_ordered by tauto.
    rewrite !allChars_app. cbn [allChars]. rewrite !allChars_app.
    intros [_ [Hd [Hdot [_ Ht]%andb_true_iff]%andb_true_iff]%andb_true_iff]
      %andb_true_iff.
    rewrite allChars_repeatChar by done.
    by rewrite Hd, Hdot, q_space, Ht.
  - by rewrite Hsame.
Qed.

Lemma allChars_rewriteLine preset line :
  allChars q line = true -> allChars q (rewriteLine preset line) = true.
Proof.
  intros Hline. unfold rewriteLine. apply allChars_normalizeListItem.
  destruct (normalizeHeadings preset), (trimTrailingWhitespace preset);
    auto using allChars_normalizeHeading, allChars_trimEnd.
Qed.
End PassesKeep.

Lemma Forall_collapseBlankLines (P : string -> Prop) n lines :
  Forall P lines -> Forall P (collapseBlankLines n lines).
Proof.
  intros Hall. revert n. induction Hall as [|line lines Hline _ IH];
    intros n; [constructor|].
  cbn [collapseBlankLines].
  destruct (isEmpty (trim line)); [destruct (S n <=? 1)|]; auto.
Qed.

Lemma collapseBlankLines_nonempty lines :
  lines <> [] -> collapseBlankLines 0 lines <> [].
Proof.
  destruct lines as [|line lines]; [done|]. intros _.
  cbn [collapseBlankLines]. by destruct (isEmpty (trim line)).
Qed.

Lemma markdownLines_nonempty content preset :
  markdownLines content preset <> [].
Proof.
  rewrite markdownLines_rewrite. simpl.
  assert (rewriteLine preset <$> splitLines content <> []) as Hne.
  { pose proof (splitLines_nonempty content).
    by destruct (splitLines content). }
  destruct (normalizeBlankLines preset); [|done].
  by apply collapseBlankLines_nonempty.
Qed.

Lemma markdownLines_noNewline content preset :
  Forall (fun line => allChars noNewline line = true)
    (markdownLines content preset).
Proof.
  rewrite markdownLines_rewrite. simpl.
  assert (Forall (fun line => allChars noNewline line = true)
            (rewriteLine preset <$> splitLines content)) as Hall.
  { apply Forall_fmap. eapply Forall_impl; [apply splitLines_noNewline|].
    intros line Hline. simpl. by apply allChars_rewriteLine. }
  destruct (normalizeBlankLines preset); [|done].
  by apply Forall_collapseBlankLines.
Qed.

Lemma splitLines_append_newline s :
  splitLines (s +:+ String "010" "") = splitLines s ++ [""].
Proof.
  induction s as [|c s IH]; [done|]. rewrite append_cons. simpl.
  destruct (Ascii.eqb c "010"); rewrite IH; [done|].
  pose proof (splitLines_nonempty s). by destruct (splitLines s).
Qed.

Lemma splitLines_formatMarkdown content preset :
  splitLines (formatMarkdown content preset)
  = markdownLines content preset
    ++ (if ensureNewlineAtEnd preset
           && negb (endsWithNewline
                      (joinLines (markdownLines content preset)))
        then [""] else []).
Proof.
  rewrite formatMarkdown_joins.
  destruct (ensureNewlineAtEnd preset && _).
  - rewrite splitLines_append_newline, split_join;
      auto using markdownLines_nonempty, markdownLines_noNewline.
  - rewrite app_nil_r, split_join;
      auto using markdownLines_nonempty, markdownLines_noNewline.
Qed.

(** The lines of the formatted markdown are the lines the passes leave,
    followed by an empty last line when the final newline is added: no pass
    produces a line feed inside a line. *)
Lemma formatMarkdown_lines (content : string) (preset : MarkdownPreset) :
  splitLines (formatMarkdown content preset)
  = markdownLines content preset
    ++ (if ensureNewlineAtEnd preset
           && negb (endsWithNewline
                      (joinLines (markdownLines content preset)))
        then [""] else []).
Proof. apply splitLines_formatMarkdown. Qed.

Lemma filter_nonblank_fmap (f : string -> string) (lines : list string) :
  (forall line, isBlank (f line) = isBlank line) ->
  filter (fun line => isBlank line = false) (f <$> lines)
  = f <$> filter (fun line => isBlank line = false) lines.
Proof.
  intros Hf. induction lines as [|line lines IH]; [done|].
  rewrite fmap_cons, !filter_cons, Hf.
  case_decide; by rewrite IH.
Qed.

(** The non-blank lines of the formatted markdown are the non-blank lines
    of the content, each rewritten by the per-line passes, in the same
    order: no such line is dropped, merged, moved or invented. *)
Lemma formatMarkdown_keeps_lines (content : string)
    (preset : MarkdownPreset) :
  filter (fun line => isBlank line = false)
    (splitLines (formatMarkdown content preset))
  = rewriteLine preset
    <$> filter (fun line => isBlank line = false) (splitLines content).
Proof.
  rewrite splitLines_formatMarkdown, filter_app.
  assert (filter (fun line => isBlank line = false)
            (if ensureNewlineAtEnd preset
                && negb (endsWithNewline
                           (joinLines (markdownLines content preset)))
             then [""] else []) = []) as ->
    by (by destruct (_ && _)).
  rewrite app_nil_r, markdownLines_rewrite. simpl.
  destruct (normalizeBlankLines preset).
  - rewrite collapseBlankLines_keeps.
    apply filter_nonblank_fmap, isBlank_rewriteLine.
  - apply filter_nonblank_fmap, isBlank_rewriteLine.
Qed.

(** ** No trailing white space *)

Lemma trimmed_app prefix text :
  isEmpty (trimEnd text) = false ->
  trimmed (prefix +:+ text) <-> trimmed text.
Proof.
  intros Hne. unfold trimmed. rewrite trimEnd_nonblank_app by done.
  split; [apply (inj (String.app prefix)) | by intros ->].
Qed.

Lemma trimmed_text_nonempty prefix c gap text :
  isWhiteSpace c = false -> allChars isWhiteSpace gap = true -> gap <> "" ->
  trimmed (prefix +:+ String c (gap +:+ text)) -> text <> "".
Proof.
  intros Hc Hgap Hne Htrim ->. rewrite append_empty_r in Htrim.
  unfold trimmed in Htrim.
  rewrite trimEnd_nonblank_app in Htrim by (simpl; by rewrite Hc).
  apply (inj (String.app prefix)) in Htrim.
  simpl in Htrim. rewrite (trimEnd_all_space gap Hgap), Hc in Htrim.
  simpl in Htrim. by injection Htrim as <-.
Qed.

Lemma trimmed_normalizeHeading line :
  trimmed line -> trimmed (normalizeHeading line).
Proof.
  unfold normalizeHeading.
  destruct (matchHeading line) as [[markers text]|] eqn:E; [|done].
  apply matchHeading_inv in E as (n & c & rest & -> & _ & -> & Hc & _).
  assert (isEmpty (trimEnd (String c rest)) = false) as Hne
    by (simpl; by rewrite Hc).
  rewrite trimmed_app by done. intros Htext.
  unfold trim. rewrite Htext. simpl trimStart. rewrite Hc.
  rewrite trimmed_app; [|by rewrite trimEnd_nonblank_app].
  by rewrite (trimmed_app " ").
Qed.

Lemma trimmed_normalizeListItem indentSize line :
  trimmed line -> trimmed (normalizeListItem indentSize line).
Proof.
  destruct (normalizeListItem_cases line)
    as [(lead & b & gap & text & -> & Hlead & Hb & Hgap & Hne & Htext & Hdot)
       |[(lead & digits & gap & text & -> & Hlead & Hd & Hdne & Hgap & Hne
            & Htext & Hdot)|Hsame]].
  - intros Htrim. rewrite normalizeListItem_unordered by done.
    pose proof (trimmed_text_nonempty _ _ _ _
                  (isBullet_not_space _ Hb) Hgap Hne Htrim) as Htne.
    pose proof (trimEnd_starts _ Htne Htext) as Hnb.
    assert (trimmed text) as Ht.
    { revert Htrim.
      replace (lead +:+ String b (gap +:+ text))
        with ((lead +:+ String b gap) +:+ text)
        by (by rewrite append_assoc, append_cons).
      by rewrite trimmed_app. }
    replace (repeatChar " " (String.length lead / 2 * indentSize)
             +:+ String b (String " " text))
      with ((repeatChar " " (String.length lead / 2 * indentSize)
             +:+ String b " ") +:+ text)
      by (by rewrite append_assoc).
    by rewrite trimmed_app.
  - intros Htrim. rewrite normalizeListItem_ordered by done.
    assert (lead +:+ digits +:+ String "." (gap +:+ text)
            = (lead +:+ digits) +:+ String "." (gap +:+ text)) as Hre
      by (by rewrite append_assoc).
    rewrite Hre in Htrim.
    pose proof (trimmed_text_nonempty _ "." _ _ eq_refl Hgap Hne Htrim)
      as Htne.
    pose proof (trimEnd_starts _ Htne Htext) as Hnb.
    assert (trimmed text) as Ht.
    { revert Htrim.
      replace ((lead +:+ digits) +:+ String "." (gap +:+ text))
        with (((lead +:+ digits) +:+ String "." gap) +:+ text)
        by (by rewrite (append_assoc _ (String "." gap)), append_cons).
      by rewrite trimmed_app. }
    replace (repeatChar " " (String.length lead / 2 * indentSize)
             +:+ (digits +:+ ".") +:+ String " " text)
      with ((repeatChar " " (String.length lead / 2 * indentSize)
             +:+ (digits +:+ ".") +:+ " ") +:+ text)
      by (by rewrite !append_assoc).
    by rewrite trimmed_app.
  - by rewrite Hsame.
Qed.

(** With [trimTrailingWhitespace], no line of the formatted markdown ends
    in white space: the later passes do not bring any back. *)
Lemma formatMarkdown_no_trailing_space (content : string)
    (preset : MarkdownPreset) :
  trimTrailingWhitespace preset = true ->
  Forall trimmed (splitLines (formatMarkdown content preset)).
Proof.
  intros Hflag. rewrite splitLines_formatMarkdown, Forall_app. split.
  - rewrite markdownLines_rewrite. simpl.
    assert (Forall trimmed (rewriteLine preset <$> splitLines content))
      as Hall.
    { apply Forall_fmap, Forall_forall. intros line _. simpl.
      unfold rewriteLine. rewrite Hflag.
      apply trimmed_normalizeListItem.
      destruct (normalizeHeadings preset).
      - apply trimmed_normalizeHeading, trimEnd_idempotent.
      - apply trimEnd_idempotent. }
    destruct (normalizeBlankLines preset); [|done].
    by apply Forall_collapseBlankLines.
  - destruct (_ && _); by repeat constructor.
Qed.

Lemma formatMarkdown_no_trailing_space_witness :
  Forall trimmed (splitLines (formatMarkdown "#Title   " md_standard)).
Proof. by apply formatMarkdown_no_trailing_space. Defined.

(** ** Sorted values *)

Lemma sortedValue_array elems :
  sortedValue (VArray elems) <-> Forall sortedValue elems.
Proof.
  simpl. induction elems as [|e elems IH].
  - split; [constructor | done].
  - rewrite Forall_cons. by rewrite IH.
Qed.

Lemma sortedValue_object props :
  sortedValue (VObject props) <->
  canonical props /\ ("__proto__" ∉ ownKeys props)
  /\ Forall (fun kv => sortedValue kv.2) props.
Proof.
  simpl.
  assert ((fix all (l : list (string * value)) : Prop :=
             match l with
             | [] => True
             | (_, w) :: l' => sortedValue w /\ all l'
             end) props
          <-> Forall (fun kv => sortedValue kv.2) props) as Hall.
  { induction props as [|[k w] props IH].
    - split; [constructor | done].
    - rewrite Forall_cons. by rewrite IH. }
  by rewrite Hall.
Qed.

Lemma getProperty_absent props key :
  key ∉ ownKeys props -> getProperty props key = VUndefined.
Proof.
  unfold ownKeys. induction props as [|[k w] props IH]; [done|].
  csimpl. intros [Hne Hnin]%not_elem_of_cons.
  rewrite decide_False by done. by apply IH.
Qed.

Lemma getProperty_present props key w :
  NoDup (ownKeys props) -> (key, w) ∈ props -> getProperty props key = w.
Proof.
  unfold ownKeys. induction props as [|[k w'] props IH]; csimpl.
  - by intros _ ?%elem_of_nil.
  - intros [Hnin Hnodup]%NoDup_cons [[= -> ->]|Hin]%elem_of_cons.
    + by rewrite decide_True.
    + rewrite decide_False; [by apply IH|].
      intros ->. apply Hnin. apply list_elem_of_fmap. by exists (key, w).
Qed.

Lemma getProperty_cases props key :
  getProperty props key = VUndefined
  \/ (key, getProperty props key) ∈ props.
Proof.
  induction props as [|[k w] props IH]; [by left|]. simpl.
  case_decide as Hk.
  - subst. right. by left.
  - destruct IH as [->|Hin]; [by left|]. right. by right.
Qed.

(** Whatever goes in, [sortObjectKeys] returns a value in which every
    object, at every depth, lists its array-index keys first in ascending
    numeric order and its other keys after them in ascending code-unit
    order, and has no key named ["__proto__"]. *)
Lemma sortObjectKeys_sorted (v : value) : sortedValue (sortObjectKeys v).
Proof.
  induction v as [| | | | |elems IH|props IH] using value_ind; try done.
  - rewrite sortObjectKeys_array, sortedValue_array.
    apply Forall_fmap. eapply Forall_impl; [exact IH|]. done.
  - destruct (sortObjectKeys_object_spec props)
      as (sorted & -> & Hcan & Hkeys & Hvals).
    rewrite sortedValue_object. split; [done|]. split.
    { rewrite Hkeys. tauto. }
    apply Forall_forall. intros [k w] Hin. simpl.
    assert (k ∈ ownKeys sorted) as Hk.
    { apply list_elem_of_fmap. by exists (k, w). }
    rewrite <- (getProperty_present sorted k w)
      by auto using canonical_NoDup.
    rewrite (Hvals k Hk).
    destruct (getProperty_cases props k) as [->|Hget]; [done|].
    rewrite Forall_forall in IH. apply (IH _ Hget).
Qed.

(** A value that is already in that form is returned as it is. *)
Lemma sortObjectKeys_fixed (v : value) :
  sortedValue v -> sortObjectKeys v = v.
Proof.
  induction v as [| | | | |elems IH|props IH] using value_ind; try done.
  - rewrite sortedValue_array, sortObjectKeys_array. intros Hall. f_equal.
    induction IH as [|e elems He _ IHelems]; [done|].
    apply Forall_cons in Hall as [Hs Hall]. simpl.
    by rewrite He, IHelems.
  - rewrite sortedValue_object. intros (Hcan & Hproto & Hall).
    destruct (sortObjectKeys_object_spec props)
      as (sorted & -> & Hcan' & Hkeys & Hvals).
    f_equal. apply canonical_unique; [done..| |].
    + intros k. rewrite Hkeys. split; [tauto|].
      intros Hk. split; [done|]. by intros ->.
    + intros k Hk. rewrite (Hvals k Hk).
      apply Hkeys in Hk as [Hk _].
      destruct (getProperty_cases props k) as [->|Hget]; [done|].
      rewrite Forall_forall in IH, Hall.
      apply (IH _ Hget), (Hall _ Hget).
Qed.

Lemma sortObjectKeys_fixed_witness :
  sortObjectKeys (VObject [("2", VNull); ("10", VNull); ("a", VArray [])])
  = VObject [("2", VNull); ("10", VNull); ("a", VArray [])].
Proof.
  apply sortObjectKeys_fixed. apply sortedValue_object.
  split; [|split].
  - unfold canonical. simpl.
    repeat (constructor; [|repeat constructor; by vm_compute]).
    constructor.
  - by apply (bool_decide_unpack _).
  - repeat constructor.
Defined.

Lemma getProperty_Permutation props1 props2 key :
  NoDup (ownKeys props1) -> props1 ≡ₚ props2 ->
  getProperty props1 key = getProperty props2 key.
Proof.
  intros Hnodup Hperm.
  assert (NoDup (ownKeys props2)) as Hnodup2.
  { unfold ownKeys in *. by rewrite <- Hperm. }
  destruct (decide (key ∈ ownKeys props1)) as [Hin|Hnin].
  - apply list_elem_of_fmap in Hin as ([k w] & -> & Hin). simpl.
    rewrite (getProperty_present props1 k w) by done.
    rewrite Hperm in Hin. by rewrite (getProperty_present props2 k w).
  - rewrite (getProperty_absent props1) by done.
    rewrite getProperty_absent; [done|].
    unfold ownKeys in *. by rewrite <- Hperm.
Qed.

(** The result does not depend on the order in which the object lists its
    properties: two objects with the same properties in different orders
    are sorted to the same object. *)
Lemma sortObjectKeys_order_insensitive
    (props1 props2 : list (string * value)) :
  NoDup (ownKeys props1) -> props1 ≡ₚ props2 ->
  sortObjectKeys (VObject props1) = sortObjectKeys (VObject props2).
Proof.
  intros Hnodup Hperm. rewrite !sortObjectKeys_object. f_equal.
  rewrite (arraySort_Permutation (ownKeys props1) (ownKeys props2))
    by (unfold ownKeys; by rewrite Hperm).
  apply fold_left_ext_keys. intros sorted key.
  by rewrite (getProperty_Permutation props1 props2).
Qed.

Lemma sortObjectKeys_order_insensitive_witness :
  sortObjectKeys (VObject [("b", VNumber 1); ("a", VNumber 2)])
  = sortObjectKeys (VObject [("a", VNumber 2); ("b", VNumber 1)]).
Proof.
  apply sortObjectKeys_order_insensitive.
  - by apply (bool_decide_unpack _).
  - apply Permutation_swap.
Defined.

(** ** Formatting twice *)

Lemma isBullet_not_hash b : isBullet b = true -> isHash b = false.
Proof.
  destruct b as [[|] [|] [|] [|] [|] [|] [|] [|]]; by vm_compute.
Qed.

Lemma isDigit_not_hash c : isDigit c = true -> isHash c = false.
Proof.
  destruct c as [[|] [|] [|] [|] [|] [|] [|] [|]]; by vm_compute.
Qed.

Lemma matchHeading_starts s : startsOutside isHash s -> matchHeading s = None.
Proof.
  destruct s as [|c s]; [done|]. unfold matchHeading. simpl. by intros ->.
Qed.

Lemma startsOutside_indent (p : ascii -> bool) (n : nat) (c : ascii)
    (rest : string) :
  p " "%char = false -> p c = false ->
  startsOutside p (repeatChar " " n +:+ String c rest).
Proof. intros Hsp Hc. by destruct n. Qed.

Lemma normalizeHeading_idem line :
  normalizeHeading (normalizeHeading line) = normalizeHeading line.
Proof.
  unfold normalizeHeading at 2 3.
  destruct (matchHeading line) as [[markers text]|] eqn:E.
  - apply matchHeading_inv in E as (n & c & rest & _ & -> & _ & _ & _).
    unfold normalizeHeading, matchHeading.
    rewrite (span_app isHash (repeatChar "#" (S n)))
      by (first [by apply allChars_repeatChar | done]).
    change (" " +:+ trim text) with (String " " (trim text)).
    cbv beta iota.
    change (negb (isWhiteSpace " ")) with false.
    by rewrite andb_false_r.
  - unfold normalizeHeading. by rewrite E.
Qed.

Lemma normalizeHeading_listItem indentSize line :
  normalizeHeading line = line ->
  normalizeHeading (normalizeListItem indentSize line)
  = normalizeListItem indentSize line.
Proof.
  intros Hline.
  destruct (normalizeListItem_cases line)
    as [(lead & b & gap & text & -> & Hlead & Hb & ?)
       |[(lead & digits & gap & text & -> & Hlead & Hd & Hdne & ?)|Hsame]].
  - rewrite normalizeListItem_unordered by tauto.
    unfold normalizeHeading. rewrite matchHeading_starts; [done|].
    apply startsOutside_indent; [done|]. by apply isBullet_not_hash.
  - rewrite normalizeListItem_ordered by tauto.
    destruct digits as [|d digits]; [done|].
    simpl in Hd. apply andb_true_iff in Hd as [Hd _].
    rewrite !append_cons.
    unfold normalizeHeading. rewrite matchHeading_starts; [done|].
    apply startsOutside_indent; [done|]. by apply isDigit_not_hash.
  - by rewrite Hsame.
Qed.

Lemma normalizeListItem_idem line :
  normalizeListItem 2 (normalizeListItem 2 line) = normalizeListItem 2 line.
Proof.
  destruct (normalizeListItem_cases line)
    as [(lead & b & gap & text & -> & Hlead & Hb & Hgap & Hne & Htext & Hdot)
       |[(lead & digits & gap & text & -> & Hlead & Hd & Hdne & Hgap & Hne
            & Htext & Hdot)|Hsame]].
  - rewrite normalizeListItem_unordered by done.
    change (String " " text) with (" " +:+ text) at 1.
    rewrite normalizeListItem_unordered
      by (first [by apply allChars_repeatChar | done]).
    by rewrite length_repeatChar, Nat.div_mul.
  - rewrite normalizeListItem_ordered by done.
    rewrite (append_assoc digits "." (String " " text)).
    change ("." +:+ String " " text) with (String "." (" " +:+ text)).
    rewrite normalizeListItem_ordered
      by (first [by apply allChars_repeatChar | done]).
    rewrite length_repeatChar, Nat.div_mul by done.
    by rewrite (append_assoc digits "." (String " " text)).
  - by rewrite !Hsame.
Qed.

Lemma rewriteLine_idem preset line :
  normalizeListIndent preset = 2 ->
  rewriteLine preset (rewriteLine preset line) = rewriteLine preset line.
Proof.
  intros Hindent. unfold rewriteLine. rewrite Hindent.
  set (y := if normalizeHeadings preset
            then normalizeHeading
                   (if trimTrailingWhitespace preset then trimEnd line
                    else line)
            else if trimTrailingWhitespace preset then trimEnd line
                 else line).
  assert ((if trimTrailingWhitespace preset
           then trimEnd (normalizeListItem 2 y)
           else normalizeListItem 2 y) = normalizeListItem 2 y) as ->.
  { destruct (trimTrailingWhitespace preset) eqn:Ht; [|done].
    apply trimmed_normalizeListItem. subst y.
    destruct (normalizeHeadings preset).
    - apply trimmed_normalizeHeading, trimEnd_idempotent.
    - apply trimEnd_idempotent. }
  assert ((if normalizeHeadings preset
           then normalizeHeading (normalizeListItem 2 y)
           else normalizeListItem 2 y) = normalizeListItem 2 y) as ->.
  { destruct (normalizeHeadings preset) eqn:Hh; [|done].
    apply normalizeHeading_listItem. subst y.
    apply normalizeHeading_idem. }
  apply normalizeListItem_idem.
Qed.

Lemma rewriteLine_empty preset : rewriteLine preset "" = "".
Proof.
  unfold rewriteLine.
  by destruct (trimTrailingWhitespace preset), (normalizeHeadings preset).
Qed.

Lemma joinLines_snoc_empty lines :
  lines <> [] -> joinLines (lines ++ [""]) = joinLines lines +:+ String "010" "".
Proof.
  induction lines as [|line lines IH]; [done|]. intros _.
  destruct lines as [|line' lines]; [done|].
  change ((line :: line' :: lines) ++ [""])
    with (line :: ((line' :: lines) ++ [""])).
  rewrite joinLines_cons by done. rewrite IH by done.
  rewrite (joinLines_cons line (line' :: lines)) by done.
  by rewrite append_assoc, append_cons.
Qed.

Lemma collapseBlankLines_snoc_empty n lines :
  blankRunFree (0 <? n) lines = true ->
  collapseBlankLines n (lines ++ [""]) = lines
  \/ collapseBlankLines n (lines ++ [""]) = lines ++ [""].
Proof.
  revert n. induction lines as [|line lines IH]; intros n.
  - intros _. simpl. destruct n; [by right | by left].
  - change ((line :: lines) ++ [""]) with (line :: (lines ++ [""])).
    cbn [collapseBlankLines blankRunFree]. unfold isBlank.
    destruct (isEmpty (trim line)).
    + destruct n as [|n]; [|done]. simpl. intros Hfree.
      destruct (IH 1 Hfree) as [-> | ->]; [by left | by right].
    + intros Hfree.
      destruct (IH 0 Hfree) as [-> | ->]; [by left | by right].
Qed.

Lemma markdownLines_rewritten content preset :
  normalizeListIndent preset = 2 ->
  rewriteLine preset <$> markdownLines content preset
  = markdownLines content preset.
Proof.
  intros Hindent.
  assert (Forall (fun line => rewriteLine preset line = line)
            (markdownLines content preset)) as Hall.
  { rewrite markdownLines_rewrite. simpl.
    assert (Forall (fun line => rewriteLine preset line = line)
              (rewriteLine preset <$> splitLines content)) as Hall.
    { apply Forall_fmap, Forall_forall. intros line _. simpl.
      by apply rewriteLine_idem. }
    destruct (normalizeBlankLines preset); [|done].
    by apply Forall_collapseBlankLines. }
  induction Hall as [|line lines Hline _ IH]; [done|].
  by rewrite fmap_cons, Hline, IH.
Qed.

Lemma markdownLines_free content preset :
  normalizeBlankLines preset = true ->
  blankRunFree false (markdownLines content preset) = true.
Proof.
  intros Hflag. rewrite markdownLines_rewrite. simpl. rewrite Hflag.
  apply (collapseBlankLines_free 0).
Qed.

(** With a list indent of 2, as in the standard and compact presets,
    formatting already formatted markdown changes nothing, whatever the
    other settings of the preset. *)
Lemma formatMarkdown_idempotent (content : string) (preset : MarkdownPreset) :
  normalizeListIndent preset = 2 ->
  formatMarkdown (formatMarkdown content preset) preset
  = formatMarkdown content preset.
Proof.
  intros Hindent.
  pose proof (markdownLines_nonempty content preset) as Hne.
  rewrite (formatMarkdown_joins (formatMarkdown content preset)).
  rewrite (markdownLines_rewrite (formatMarkdown content preset)).
  rewrite splitLines_formatMarkdown. simpl.
  rewrite fmap_app, markdownLines_rewritten by done.
  rewrite (formatMarkdown_joins content).
  set (lines := markdownLines content preset) in *.
  destruct (ensureNewlineAtEnd preset) eqn:Hensure; simpl.
  - destruct (endsWithNewline (joinLines lines)) eqn:Hends; simpl.
    + rewrite app_nil_r.
      assert ((if normalizeBlankLines preset
               then collapseBlankLines 0 lines else lines) = lines) as ->.
      { destruct (normalizeBlankLines preset) eqn:Hblank; [|done].
        apply (collapseBlankLines_fixed 0).
        by apply markdownLines_free. }
      by rewrite Hends.
    + rewrite rewriteLine_empty.
      destruct (normalizeBlankLines preset) eqn:Hblank.
      * pose proof (markdownLines_free content preset Hblank) as Hfree.
        destruct (collapseBlankLines_snoc_empty 0 lines Hfree) as [-> | ->].
        -- by rewrite Hends.
        -- rewrite joinLines_snoc_empty by done.
           by rewrite endsWithNewline_append.
      * rewrite joinLines_snoc_empty by done.
        by rewrite endsWithNewline_append.
  - rewrite app_nil_r.
    assert ((if normalizeBlankLines preset
             then collapseBlankLines 0 lines else lines) = lines) as ->.
    { destruct (normalizeBlankLines preset) eqn:Hblank; [|done].
      apply (collapseBlankLines_fixed 0).
      by apply markdownLines_free. }
    done.
Qed.

Lemma formatMarkdown_idempotent_witness :
  formatMarkdown (formatMarkdown "#Title  " md_compact) md_compact
  = formatMarkdown "#Title  " md_compact.
Proof. by apply formatMarkdown_idempotent. Defined.

(** ** The comparison, its statistics and its views *)

Lemma nonblank_nonempty s : isEmpty (trim s) = false -> isEmpty s = false.
Proof. by destruct s. Qed.

Lemma nonblank_length s :
  (0 <? String.length (trim s)) = negb (isEmpty (trim s)).
Proof. by destruct (trim s). Qed.

(** [compareDiff] leaves either an error message or an edit script, never
    both and never neither; with an error message every other slot it
    writes is back at its reset value. *)
Lemma compareDiff_outcome `{Host} (contentType : ContentType)
    (primaryInput secondaryInput : string) :
  let w := compareDiff contentType primaryInput secondaryInput in
  (error w = "" <-> is_Some (diffResult w))
  /\ (error w <> "" -> w = resetWith (error w)).
Proof.
  assert (forall message rest : string,
            let w := resetWith (String "I" message +:+ rest) in
            (error w = "" <-> is_Some (diffResult w))
            /\ (error w <> "" -> w = resetWith (error w))) as Hinvalid.
  { intros message rest. simpl. split; [|done].
    split; [done|]. by intros ?%is_Some_None. }
  assert (forall message rest : string,
            let w := resetWith (String "P" message +:+ rest) in
            (error w = "" <-> is_Some (diffResult w))
            /\ (error w <> "" -> w = resetWith (error w))) as Hplease.
  { intros message rest. simpl. split; [|done].
    split; [done|]. by intros ?%is_Some_None. }
  unfold compareDiff.
  destruct (isEmpty (trim primaryInput) || isEmpty (trim secondaryInput)).
  { apply Hplease. }
  destruct contentType.
  - destruct (JSON_parse primaryInput) as [left_|message];
      [|apply Hinvalid].
    destruct (JSON_parse secondaryInput) as [right_|message];
      [|apply Hinvalid].
    simpl. split; [|done]. split; [by eexists | done].
  - simpl. split; [|done]. split; [by eexists | done].
Qed.

Lemma compareDiff_outcome_witness :
  compareDiff (H := exampleHost) json "{" "{}"
  = resetWith (error (compareDiff (H := exampleHost) json "{" "{}")).
Proof.
  by apply (proj2 (compareDiff_outcome (H := exampleHost) json "{" "{}")).
Defined.

(** Comparing two non-blank markdown texts reports no changes, in the
    [hasChanges] flag and in the three counters alike, exactly when the two
    texts are the same text. *)
Lemma compare_markdown_changes `{Host} (primaryInput secondaryInput : string) :
  isEmpty (trim primaryInput) = false ->
  isEmpty (trim secondaryInput) = false ->
  let w := compareDiff markdown primaryInput secondaryInput in
  (hasChanges markdown (diffResult w) (semanticDiff w) = false
   <-> primaryInput = secondaryInput)
  /\ (stats (diffResult w) = mkDiffStats 0 0 0
      <-> primaryInput = secondaryInput).
Proof.
  intros Hp Hs. unfold compareDiff. rewrite Hp, Hs.
  cbn [orb diffResult semanticDiff]. split.
  - rewrite hasChanges_markdown.
    split; [apply splitLines_inj | by intros ->].
  - rewrite stats_zero_iff_equal.
    split; [apply splitLines_inj | by intros ->].
Qed.

Lemma compare_markdown_changes_witness :
  stats (diffResult (compareDiff (H := exampleHost) markdown "# a" "# a"))
  = mkDiffStats 0 0 0.
Proof.
  by apply (compare_markdown_changes (H := exampleHost) "# a" "# a").
Defined.

(** Comparing two JSON texts that parse gives three zero counters exactly
    when the two values have the same text under [formatJson]: the counters
    see the formatted values, not the texts entered. *)
Lemma compare_json_stats `{Host} (primaryInput secondaryInput : string)
    (left_ right_ : value) :
  isEmpty (trim primaryInput) = false ->
  isEmpty (trim secondaryInput) = false ->
  JSON_parse primaryInput = inl left_ ->
  JSON_parse secondaryInput = inl right_ ->
  let w := compareDiff json primaryInput secondaryInput in
  stats (diffResult w) = mkDiffStats 0 0 0
  <-> formatJson left_ (IndentWidth 2) = formatJson right_ (IndentWidth 2).
Proof.
  intros Hp Hs Hleft Hright. unfold compareDiff.
  rewrite Hp, Hs, Hleft, Hright. cbn [orb diffResult].
  rewrite stats_zero_iff_equal.
  split; [apply splitLines_inj | by intros ->].
Qed.

Lemma compare_json_stats_witness :
  stats (diffResult (compareDiff (H := digitHost) json "0" "0"))
  = mkDiffStats 0 0 0.
Proof.
  by apply (compare_json_stats (H := digitHost) "0" "0"
              (VNumber 0) (VNumber 0)).
Defined.

Lemma markedBy_complete t1 t2 script line u :
  u ∈ script -> type u = t1 \/ type u = t2 -> content u = Some line ->
  markedBy t1 t2 (Some script) line = true.
Proof.
  intros Hu Htype Hcontent. unfold markedBy.
  destruct (find _ script) as [d|] eqn:Hfind.
  - apply find_some in Hfind as [_ Hd].
    by apply andb_true_iff in Hd as [Hd _].
  - apply list_elem_of_In in Hu.
    pose proof (find_none _ _ Hfind u Hu) as Hfalse. simpl in Hfalse.
    rewrite (bool_decide_eq_true_2 _ Hcontent), andb_true_r in Hfalse.
    destruct Htype as [Ht|Ht];
      rewrite (bool_decide_eq_true_2 _ Ht) in Hfalse;
      by rewrite ?orb_true_r in Hfalse.
Qed.

Lemma markedBy_sound t1 t2 script line :
  markedBy t1 t2 (Some script) line = true ->
  exists u, u ∈ script /\ (type u = t1 \/ type u = t2)
            /\ content u = Some line.
Proof.
  unfold markedBy. destruct (find _ script) as [d|] eqn:Hfind; [|done].
  intros _. apply find_some in Hfind as [Hin Hd].
  apply andb_true_iff in Hd as [Htype Hcontent].
  exists d. split; [by apply list_elem_of_In|]. split.
  - apply orb_true_iff in Htype as [Ht|Ht];
      apply bool_decide_eq_true in Ht; tauto.
  - by apply bool_decide_eq_true in Hcontent.
Qed.

Lemma rowText_imap (mark : string -> bool) (lines : list string) :
  rowText <$> imap (fun idx line => mkSplitRow (idx + 1) line (mark line))
                lines
  = lines.
Proof.
  apply list_eq. intros i.
  rewrite list_lookup_fmap, list_lookup_imap.
  by destruct (lines !! i).
Qed.

(** The split view of a comparison lists the lines of the two sides,
    and highlights every line the edit script reports: each removed or
    modified-old unit has its row, under its own number, highlighted in the
    original column, and each added or modified-new unit in the modified
    column.  Highlighting goes by text, so a highlighted row need only
    share its text with such a unit. *)
Lemma split_view_highlights `{Host} (contentType : ContentType)
    (leftParsed rightParsed : value) (leftLines rightLines : list string) :
  truthy leftParsed = true -> truthy rightParsed = true ->
  sideLines contentType leftParsed = Some leftLines ->
  sideLines contentType rightParsed = Some rightLines ->
  let script := computeLineDiff leftLines rightLines in
  exists original modified,
    renderSplitView contentType (Some script) leftParsed rightParsed
    = SplitColumns original modified
    /\ rowText <$> original = leftLines
    /\ rowText <$> modified = rightLines
    /\ (forall u, u ∈ script -> type u = removed \/ type u = modified_old ->
          exists row, original !! (lineNumber u - 1) = Some row
                      /\ rowNumber row = lineNumber u
                      /\ Some (rowText row) = content u
                      /\ rowMarked row = true)
    /\ (forall u, u ∈ script -> type u = added \/ type u = modified_new ->
          exists row, modified !! (lineNumber u - 1) = Some row
                      /\ rowNumber row = lineNumber u
                      /\ Some (rowText row) = content u
                      /\ rowMarked row = true)
    /\ (forall row, row ∈ original -> rowMarked row = true ->
          exists u, u ∈ script /\ (type u = removed \/ type u = modified_old)
                    /\ content u = Some (rowText row))
    /\ (forall row, row ∈ modified -> rowMarked row = true ->
          exists u, u ∈ script /\ (type u = added \/ type u = modified_new)
                    /\ content u = Some (rowText row)).
Proof.
  intros Hleft Hright Hll Hrl script. unfold renderSplitView.
  rewrite Hleft, Hright, Hll, Hrl. simpl.
  eexists _, _. split; [reflexivity|].
  split; [apply rowText_imap|]. split; [apply rowText_imap|].
  pose proof (units_carry_lines leftLines rightLines) as Hcarry.
  rewrite Forall_forall in Hcarry.
  split; [|split; [|split]].
  - intros u Hu Htype.
    destruct (Hcarry u Hu) as (Hpos & [line Hline] & Hlookup).
    assert (leftLines !! (lineNumber u - 1) = Some line) as Hl
      by (destruct Htype as [Ht|Ht]; rewrite Ht in Hlookup; congruence).
    eexists. rewrite list_lookup_imap, Hl. simpl.
    split; [reflexivity|]. simpl. split; [lia|]. split; [done|].
    by apply (markedBy_complete _ _ _ _ u).
  - intros u Hu Htype.
    destruct (Hcarry u Hu) as (Hpos & [line Hline] & Hlookup).
    assert (rightLines !! (lineNumber u - 1) = Some line) as Hl
      by (destruct Htype as [Ht|Ht]; rewrite Ht in Hlookup; congruence).
    eexists. rewrite list_lookup_imap, Hl. simpl.
    split; [reflexivity|]. simpl. split; [lia|]. split; [done|].
    by apply (markedBy_complete _ _ _ _ u).
  - intros row (i & line & -> & _)%elem_of_lookup_imap. simpl.
    apply markedBy_sound.
  - intros row (i & line & -> & _)%elem_of_lookup_imap. simpl.
    apply markedBy_sound.
Qed.

Lemma split_view_highlights_witness :
  exists original modified,
    renderSplitView (H := exampleHost) markdown
      (Some (computeLineDiff ["a"; "b"] ["a"])) (VString "a
b") (VString "a")
    = SplitColumns original modified.
Proof.
  destruct (split_view_highlights (H := exampleHost) markdown
              (VString "a
b") (VString "a") ["a"; "b"] ["a"])
    as (original & modified & Hview & _); try reflexivity.
  by exists original, modified.
Defined.

(** A JSON comparison in which a side parses to a falsy value (zero,
    [false], the empty string or [null]) succeeds, with an edit script and
    no error, and yet has no split view; when it is the left side, it has
    no annotated view either. *)
Lemma falsy_value_has_no_view `{Host} (primaryInput secondaryInput : string)
    (left_ right_ : value) :
  isEmpty (trim primaryInput) = false ->
  isEmpty (trim secondaryInput) = false ->
  JSON_parse primaryInput = inl left_ ->
  JSON_parse secondaryInput = inl right_ ->
  truthy left_ = false \/ truthy right_ = false ->
  let w := compareDiff json primaryInput secondaryInput in
  error w = "" /\ is_Some (diffResult w)
  /\ renderSplitView json (diffResult w) (leftParsed w) (rightParsed w)
     = NoSplitView
  /\ (truthy left_ = false ->
      forall formatHtml,
        renderAnnotatedHtml formatHtml (leftParsed w) (semanticDiff w)
        = None).
Proof.
  intros Hp Hs Hleft Hright Hfalsy. unfold compareDiff.
  rewrite Hp, Hs, Hleft, Hright.
  cbn [orb error diffResult leftParsed rightParsed semanticDiff].
  split; [done|]. split; [by eexists|]. split.
  - unfold renderSplitView. by destruct Hfalsy as [-> | ->];
      rewrite ?orb_true_r.
  - intros Hl formatHtml. unfold renderAnnotatedHtml. by rewrite Hl.
Qed.

Lemma falsy_value_has_no_view_witness :
  renderSplitView (H := digitHost) json
    (diffResult (compareDiff (H := digitHost) json "0" "1"))
    (leftParsed (compareDiff (H := digitHost) json "0" "1"))
    (rightParsed (compareDiff (H := digitHost) json "0" "1"))
  = NoSplitView.
Proof.
  apply (falsy_value_has_no_view (H := digitHost) "0" "1"
           (VNumber 0) (VNumber 1));
    solve [reflexivity | by left].
Defined.

(** The beautified result never carries both an output and an error; for
    markdown it never carries an error; and whenever it carries anything,
    the secondary panel is blank and hidden, so that [compareDiff] on the
    same inputs yields no edit script. *)
Lemma beautify_excludes_compare `{Host} (contentType : ContentType)
    (primaryInput secondaryInput : string) (showSecondary : bool)
    (preset : FormatPreset) (markdownPreset : MarkdownPreset) :
  let r := beautifiedResult
             (currentMode primaryInput secondaryInput showSecondary)
             contentType primaryInput preset markdownPreset in
  (r.1 = "" \/ r.2 = "")
  /\ (contentType = markdown -> r.2 = "")
  /\ (r <> ("", "") ->
      isEmpty (trim secondaryInput) = true /\ showSecondary = false
      /\ diffResult (compareDiff contentType primaryInput secondaryInput)
         = None).
Proof.
  unfold beautifiedResult, currentMode, compareDiff.
  rewrite !nonblank_length.
  destruct (isEmpty (trim primaryInput)) eqn:Hp; simpl.
  { split; [by left|]. split; [done|]. done. }
  destruct (isEmpty (trim secondaryInput)) eqn:Hs; simpl.
  - destruct showSecondary; simpl.
    { split; [by left|]. split; [done|]. done. }
    destruct contentType; simpl.
    + unfold beautifyJson.
      destruct (JSON_parse primaryInput); simpl;
        (split; [tauto|]); (split; [done|]); done.
    + split; [by right|]. split; [done|]. done.
  - split; [by left|]. split; [done|]. done.
Qed.

Lemma beautify_excludes_compare_witness :
  diffResult (compareDiff (H := exampleHost) json "{}" "") = None.
Proof.
  by apply (proj2 (proj2 (beautify_excludes_compare (H := exampleHost)
                            json "{}" "" false preset_standard
                            md_standard))).
Defined.

(** ** Headings in a whole document *)

Lemma matchesDotStar_line s :
  allChars noNewline s = true -> matchesDotStar s = noCarriageReturn s.
Proof.
  unfold matchesDotStar, noCarriageReturn.
  induction s as [|c s IH]; [done|]. simpl.
  intros [Hc Hs]%andb_true_iff. rewrite (IH Hs). f_equal.
  unfold isLineTerminator, noNewline in *.
  destruct (Ascii.eqb_spec c "010") as [->|Hlf]; [done|].
  destruct (Ascii.eqb_spec c "013") as [->|Hcr]; [done|].
  assert (nat_of_ascii c <> 10) as H10
    by (intros H; apply Hlf; by rewrite <- (ascii_nat_embedding c), H).
  assert (nat_of_ascii c <> 13) as H13
    by (intros H; apply Hcr; by rewrite <- (ascii_nat_embedding c), H).
  apply Nat.eqb_neq in H10, H13. by rewrite H10, H13.
Qed.

(** The heading pass on a line that starts with markers, in one
    equation. *)
Lemma normalizeHeading_markers (n : nat) (text : string) :
  1 <= n -> startsOutside isHash text -> allChars noNewline text = true ->
  normalizeHeading (repeatChar "#" n +:+ text)
  = if headingRewritten n text
    then repeatChar "#" n +:+ " " +:+ trim text
    else repeatChar "#" n +:+ text.
Proof.
  intros Hn Hstart Hline.
  unfold normalizeHeading, matchHeading, headingRewritten.
  rewrite span_markers by (by destruct text).
  destruct text as [|c rest]; [by rewrite andb_false_r|].
  simpl in Hstart.
  rewrite length_repeatChar, Hstart, (matchesDotStar_line _ Hline).
  apply Nat.leb_le in Hn. rewrite Hn. simpl.
  rewrite andb_true_r.
  by destruct (_ && _ && _).
Qed.

Lemma nonblank_line_rewritten content preset i line :
  nonblankLines content !! i = Some line ->
  nonblankLines (formatMarkdown content preset) !! i
  = Some (rewriteLine preset line).
Proof.
  unfold nonblankLines. intros Hline.
  rewrite splitLines_formatMarkdown, filter_app.
  assert (filter (fun line => isBlank line = false)
            (if ensureNewlineAtEnd preset
                && negb (endsWithNewline
                           (joinLines (markdownLines content preset)))
             then [""] else []) = []) as ->
    by (by destruct (_ && _)).
  rewrite app_nil_r, markdownLines_rewrite. simpl.
  assert (filter (fun line => isBlank line = false)
            (if normalizeBlankLines preset
             then collapseBlankLines 0
                    (rewriteLine preset <$> splitLines content)
             else rewriteLine preset <$> splitLines content)
          = rewriteLine preset
            <$> filter (fun line => isBlank line = false)
                  (splitLines content)) as ->.
  { destruct (normalizeBlankLines preset).
    - rewrite collapseBlankLines_keeps.
      apply filter_nonblank_fmap, isBlank_rewriteLine.
    - apply filter_nonblank_fmap, isBlank_rewriteLine. }
  by rewrite list_lookup_fmap, Hline.
Qed.

(** C8, amended.  Take any document and any preset with heading
    normalization enabled, and a line of the document that, once the preset
    has trimmed its trailing white space if it does so, is made of [n]
    markers, at least one, and of a text that does not start with a marker.
    Such a line is not blank, and [formatMarkdown] puts in its place, at
    the same position among the non-blank lines: the markers, one space and
    the text trimmed, when there are at most six markers, the text starts
    with a character that is not white space, and it holds no carriage
    return; and the line as it is, in every other case, that is when the
    markers are followed by white space or by nothing, when there are more
    than six of them, or when the text holds a carriage return.  Extra
    white space between the markers and the text is never trimmed. *)
Theorem heading_normalization (content : string) (preset : MarkdownPreset)
    (i n : nat) (line text : string) :
  normalizeHeadings preset = true ->
  nonblankLines content !! i = Some line ->
  (if trimTrailingWhitespace preset then trimEnd line else line)
  = repeatChar "#" n +:+ text ->
  1 <= n -> startsOutside isHash text ->
  nonblankLines (formatMarkdown content preset) !! i
  = Some (if headingRewritten n text
          then repeatChar "#" n +:+ " " +:+ trim text
          else repeatChar "#" n +:+ text).
Proof.
  intros Hheadings Hline Hshape Hn Hstart.
  rewrite (nonblank_line_rewritten _ _ _ _ Hline). f_equal.
  unfold rewriteLine. rewrite Hheadings, Hshape.
  assert (allChars noNewline text = true) as Htext.
  { assert (allChars noNewline line = true) as Hl.
    { pose proof (splitLines_noNewline content) as Hall.
      rewrite Forall_forall in Hall. apply Hall.
      unfold nonblankLines in Hline.
      apply list_elem_of_lookup_2 in Hline.
      by apply list_elem_of_filter in Hline as [_ Hline]. }
    assert (allChars noNewline (repeatChar "#" n +:+ text) = true) as Hl'.
    { rewrite <- Hshape.
      destruct (trimTrailingWhitespace preset);
        [by apply allChars_trimEnd | done]. }
    rewrite allChars_app in Hl'. by apply andb_true_iff in Hl' as [_ Hl']. }
  rewrite normalizeHeading_markers by done.
  destruct n as [|n]; [lia|].
  destruct (headingRewritten (S n) text).
  - by apply (normalizeListItem_heading _ _
                (repeatChar "#" n +:+ " " +:+ trim text)).
  - by apply (normalizeListItem_heading _ _ (repeatChar "#" n +:+ text)).
Qed.

Lemma heading_normalization_witness :
  nonblankLines (formatMarkdown "intro


##Title of  the page  
#   kept" md_standard) !! 1
  = Some "## Title of  the page".
Proof.
  apply (heading_normalization "intro


##Title of  the page  
#   kept" md_standard 1 2 "##Title of  the page  " "Title of  the page");
    first [reflexivity | lia].
Defined.

(** A heading line that ends in a carriage return, in a document with
    Windows line ends: the standard preset trims the carriage return with
    the trailing white space, and the heading is normalized. *)
Example heading_before_carriage_return :
  formatMarkdown
    ("#Title" +:+ String "013" (String "010" ("##  kept" +:+ String "013" "")))
    md_standard
  = "# Title" +:+ String "010" ("##  kept" +:+ String "010" "").
Proof. reflexivity. Qed.
